(** * leafOS: the UEFI entry routine of the kernel

    A shallow embedding of [kernel/main.cpp] and of the parts of [uefi.hpp]
    it uses: the status codes and the [EFI_ERROR] macro, the serial
    diagnostic channel ([debug_putc], [debug_puts]), the runners of the
    linker-provided constructor and destructor arrays ([_init], [_fini]),
    the five module initializers and the entry routine [main].

    Conventions of the embedding.
    - [UINTN] and [EFI_STATUS] are 64 bits wide (the default target of the
      Makefile is x86_64): a [Z] reduced modulo [2^64].
    - A [char] is its byte, a C string is a [list byte] read up to its
      first zero byte.
    - Code that can wait or loop takes a bound on the number of steps
      ([fuel]); [None] means that the bound was reached before the code
      returned.  [converges] is the judgement "returns this value and this
      state with every large enough bound, and nothing else with any".
    - The UART register at [0x3F8] is volatile: the value of its [k]-th
      read is given by a sequence [uart_read], every access is recorded.
    - The firmware and the module initializers are parameters of [main]:
      the firmware as the two entry points of the boot-services table over
      a state of its own, the initializers as routines over the machine
      state.  The initializers of the source are [source_inits].
    - The kernel state carries a trace of the calls that [_init], [_fini]
      and [main] make: array entries, initializers, [debug_puts] with its
      argument, the two firmware entry points with arguments and results.
      Routines of the machine cannot write to it. *)

From Stdlib Require Import ZArith List Strings.String Strings.Ascii Strings.Byte.
From Stdlib Require Import Bool Arith Lia Sorted.
Import ListNotations.
Local Open Scope Z_scope.

(** ** uefi.hpp *)

Definition UINTN_bits : Z := 64.

(** Conversion to [UINTN] (unsigned, wraps around). *)
Definition to_UINTN (z : Z) : Z := z mod 2 ^ UINTN_bits.

(** The cast [(INTN)x] of a [UINTN]: two's complement. *)
Definition to_INTN (z : Z) : Z :=
  let u := to_UINTN z in
  if u <? 2 ^ (UINTN_bits - 1) then u else u - 2 ^ UINTN_bits.

Definition EFI_STATUS := Z.
Definition EFI_HANDLE := Z.

Definition EFI_SUCCESS : EFI_STATUS := 0.
Definition EFI_LOAD_ERROR : EFI_STATUS := 1.
Definition EFI_INVALID_PARAMETER : EFI_STATUS := 2.
Definition EFI_UNSUPPORTED : EFI_STATUS := 3.
Definition EFI_BAD_BUFFER_SIZE : EFI_STATUS := 4.
Definition EFI_BUFFER_TOO_SMALL : EFI_STATUS := 5.
Definition EFI_NOT_READY : EFI_STATUS := 6.
Definition EFI_DEVICE_ERROR : EFI_STATUS := 7.
Definition EFI_WRITE_PROTECTED : EFI_STATUS := 8.
Definition EFI_OUT_OF_RESOURCES : EFI_STATUS := 9.
Definition EFI_NOT_FOUND : EFI_STATUS := 14.
Definition EFI_ABORTED : EFI_STATUS := 21.

(** [#define EFI_ERROR(Status) ((INTN)(Status) < 0)] *)
Definition EFI_ERROR (Status : EFI_STATUS) : bool := to_INTN Status <? 0.

(** The error codes the header defines, [EFI_LOAD_ERROR] to [EFI_ABORTED]. *)
Definition header_error_codes : list EFI_STATUS :=
  [EFI_LOAD_ERROR; EFI_INVALID_PARAMETER; EFI_UNSUPPORTED;
   EFI_BAD_BUFFER_SIZE; EFI_BUFFER_TOO_SMALL; EFI_NOT_READY;
   EFI_DEVICE_ERROR; EFI_WRITE_PROTECTED; EFI_OUT_OF_RESOURCES;
   EFI_NOT_FOUND; EFI_ABORTED].

(** ** Computations with a step bound *)

Definition run (S A : Type) : Type := nat -> S -> option (A * S).

Definition ret {S A : Type} (a : A) : run S A := fun _ s => Some (a, s).

Definition bind {S A B : Type} (m : run S A) (f : A -> run S B) : run S B :=
  fun fuel s =>
    match m fuel s with
    | Some (a, s') => f a fuel s'
    | None => None
    end.

(** Behaviour the language leaves undefined: no result with any bound. *)
Definition undefined {S A : Type} : run S A := fun _ _ => None.

Declare Scope run_scope.
Delimit Scope run_scope with run.
Notation "x <- m ;; k" := (bind m (fun x => k))
  (at level 61, m at next level, right associativity) : run_scope.
Notation "m ;; k" := (bind m (fun _ => k))
  (at level 61, right associativity) : run_scope.
Local Open Scope run_scope.

Definition converges {S A : Type} (m : run S A) (s : S) (a : A) (s' : S) : Prop :=
  (exists n0 : nat, forall n : nat, (n0 <= n)%nat -> m n s = Some (a, s')) /\
  (forall (n : nat) (r : A * S), m n s = Some r -> r = (a, s')).

(** The computation returns from [s], with a value and a state that
    satisfy [Q]. *)
Definition wp {S A : Type} (m : run S A) (s : S) (Q : A -> S -> Prop) : Prop :=
  exists (a : A) (s' : S), converges m s a s' /\ Q a s'.

(** ** The diagnostic channel *)

Inductive bus_op : Type :=
| BusRead (v : byte)
| BusWrite (b : byte).

(** [polls]: how many times the register was read; [bus]: every access,
    oldest first. *)
Record uart : Type := mkUart { polls : nat; bus : list bus_op }.

Definition uart_reset : uart := mkUart 0 [].

(** The bytes written to the register, oldest first. *)
Fixpoint tx_of (l : list bus_op) : list byte :=
  match l with
  | [] => []
  | BusRead _ :: l' => tx_of l'
  | BusWrite b :: l' => b :: tx_of l'
  end.

Definition tx (u : uart) : list byte := tx_of (bus u).

(** Bit 5 ([0x20]) of the value read is set. *)
Definition tx_empty (v : byte) : bool :=
  negb (Z.land (Z.of_N (Byte.to_N v)) 0x20 =? 0).

Definition LF : byte := x0a.
Definition CR : byte := x0d.

(** What the channel carries for the byte [c]. *)
Definition crlf (c : byte) : list byte :=
  if Byte.eqb c LF then [LF; CR] else [c].

(** One byte goes out: reads that find the flag clear, a read that finds
    it set, the write. *)
Inductive byte_sent (c : byte) : list bus_op -> Prop :=
| sent_now (v : byte) :
    tx_empty v = true -> byte_sent c [BusRead v; BusWrite c]
| sent_later (v : byte) (l : list bus_op) :
    tx_empty v = false -> byte_sent c l -> byte_sent c (BusRead v :: l).

Inductive bytes_sent : list byte -> list bus_op -> Prop :=
| sent_nil : bytes_sent [] []
| sent_cons (c : byte) (cs : list byte) (l1 l2 : list bus_op) :
    byte_sent c l1 -> bytes_sent cs l2 -> bytes_sent (c :: cs) (l1 ++ l2).

Section Channel.

(** The value of the [k]-th read of the register. *)
Variable uart_read : nat -> byte.

Definition uart_poll : run uart byte :=
  fun _ u =>
    let v := uart_read (polls u) in
    Some (v, mkUart (S (polls u)) (bus u ++ [BusRead v])).

Definition uart_write (c : byte) : run uart unit :=
  fun _ u => Some (tt, mkUart (polls u) (bus u ++ [BusWrite c])).

(** The busy wait of [debug_putc]: poll until bit 5 of the value read is
    set. *)
Fixpoint wait_tx_empty (fuel : nat) (u : uart) : option (unit * uart) :=
  match fuel with
  | O => None
  | S fuel' =>
      (v <- uart_poll;;
       if tx_empty v then ret tt else (fun _ => wait_tx_empty fuel')) fuel' u
  end.

Fixpoint debug_putc (c : byte) (fuel : nat) (u : uart) : option (unit * uart) :=
  match fuel with
  | O => None
  | S fuel' =>
      (wait_tx_empty;;
       uart_write c;;
       if Byte.eqb c LF then (fun _ => debug_putc CR fuel') else ret tt) fuel' u
  end.

(** [str] is the memory from the pointer on; reading past it is
    undefined. *)
Fixpoint debug_puts (str : list byte) : run uart unit :=
  match str with
  | [] => undefined
  | c :: str' =>
      if Byte.eqb c x00 then ret tt
      else (debug_putc c;; debug_puts str')
  end.

End Channel.

(** A string literal of the source: its bytes and the terminating zero. *)
Definition c_str (s : string) : list byte := list_byte_of_string s ++ [x00].

(** The bytes of a buffer before its first zero byte. *)
Fixpoint c_prefix (str : list byte) : list byte :=
  match str with
  | [] => []
  | c :: str' => if Byte.eqb c x00 then [] else c :: c_prefix str'
  end.

(** ["\n"] *)
Definition nl : string := String (ascii_of_byte LF) EmptyString.


(** ** State of the kernel: machine, firmware, globals and call trace *)

Inductive module : Type :=
| Memory | Devices | FileSystem | Graphics | HotServices.

(** What [_init], [_fini] and [main] call, in the order of the calls. *)
Inductive event : Type :=
| Ctor (i : nat)
| Dtor (i : nat)
| Invoke (m : module)
| Puts (s : string)
| GetMemoryMapCall (MemoryMapSize : Z) (MemoryMap : option Z)
    (status : EFI_STATUS) (MapKey : Z)
| ExitBootServicesCall (ImageHandle : EFI_HANDLE) (MapKey : Z)
    (status : EFI_STATUS).

(** The four variables [GetMemoryMap] reads and writes through pointers. *)
Record map_vars : Type := mkMapVars {
  MemoryMapSize : Z;
  MapKey : Z;
  DescriptorSize : Z;
  DescriptorVersion : Z
}.

(** The entries of the boot-services table that [main] calls, over the
    state [F] of the firmware.  The [MemoryMap] argument is the address of
    the buffer, [None] for [nullptr]. *)
Record EFI_BOOT_SERVICES (F : Type) : Type := mkBootServices {
  GetMemoryMap : map_vars -> option Z -> F -> EFI_STATUS * map_vars * F;
  ExitBootServices : EFI_HANDLE -> Z -> F -> EFI_STATUS * F
}.
Arguments GetMemoryMap {F}.
Arguments ExitBootServices {F}.
Arguments mkBootServices {F}.

Record EFI_SYSTEM_TABLE (F : Type) : Type := mkSystemTable {
  BootServices : EFI_BOOT_SERVICES F
}.
Arguments BootServices {F}.
Arguments mkSystemTable {F}.

(** The three globals are null ([None], handle [0]) until [main] sets
    them. *)
Record world (F : Type) : Type := mkWorld {
  hw : uart;
  fw : F;
  gSystemTable : option (EFI_SYSTEM_TABLE F);
  gImageHandle : EFI_HANDLE;
  gBootServices : option (EFI_BOOT_SERVICES F);
  trace : list event
}.
Arguments hw {F}.
Arguments fw {F}.
Arguments gSystemTable {F}.
Arguments gImageHandle {F}.
Arguments gBootServices {F}.
Arguments trace {F}.
Arguments mkWorld {F}.

Definition set_hw {F : Type} (w : world F) (u : uart) : world F :=
  mkWorld u (fw w) (gSystemTable w) (gImageHandle w) (gBootServices w) (trace w).

Definition set_fw {F : Type} (w : world F) (f : F) : world F :=
  mkWorld (hw w) f (gSystemTable w) (gImageHandle w) (gBootServices w) (trace w).

Definition add_event {F : Type} (w : world F) (e : event) : world F :=
  mkWorld (hw w) (fw w) (gSystemTable w) (gImageHandle w) (gBootServices w)
    (trace w ++ [e]).

Definition power_on {F : Type} (f : F) : world F :=
  mkWorld uart_reset f None 0 None [].

Definition emit {F : Type} (e : event) : run (world F) unit :=
  fun _ w => Some (tt, add_event w e).

(** A routine of the machine run in the kernel. *)
Definition on_hw {F A : Type} (m : run uart A) : run (world F) A :=
  fun fuel w =>
    match m fuel (hw w) with
    | Some (a, u) => Some (a, set_hw w u)
    | None => None
    end.

(** ** Static initialization: [_init] and [_fini] *)

(** An entry of [__init_array] or [__fini_array]: a routine, or [None] for
    a null pointer. *)
Definition entry : Type := option (run uart unit).

(** The loop of [_init] and of [_fini], from the entry of index [i] to the
    end of the array; [called i] records the call of entry [i]. *)
Fixpoint call_entries {F : Type} (called : nat -> event) (entries : list entry)
    (i : nat) : run (world F) unit :=
  match entries with
  | [] => ret tt
  | e :: entries' =>
      match e with
      | Some f => emit (called i);; on_hw f
      | None => ret tt
      end;;
      call_entries called entries' (S i)
  end.

Definition _init {F : Type} (__init_array : list entry) : run (world F) unit :=
  call_entries Ctor __init_array 0.

Definition _fini {F : Type} (__fini_array : list entry) : run (world F) unit :=
  call_entries Dtor __fini_array 0.

(** The indices of the entries that are not null, ascending from [i]. *)
Fixpoint nonnull_from (entries : list entry) (i : nat) : list nat :=
  match entries with
  | [] => []
  | Some _ :: entries' => i :: nonnull_from entries' (S i)
  | None :: entries' => nonnull_from entries' (S i)
  end.

(** ** The messages of [main] *)

Definition msg_banner_top : string :=
  (nl ++ nl ++ "========================================" ++ nl)%string.
Definition msg_banner_title : string :=
  ("    leafOS 内核 - UEFI启动" ++ nl)%string.
Definition msg_banner_bottom : string :=
  ("========================================" ++ nl ++ nl)%string.
Definition msg_modules_start : string :=
  ("[内核] 开始初始化内核模块..." ++ nl ++ nl)%string.
Definition msg_memory_failed : string :=
  ("[错误] 内存管理器初始化失败！" ++ nl)%string.
Definition msg_devices_warning : string :=
  ("[警告] 部分设备驱动初始化失败，继续启动..." ++ nl)%string.
Definition msg_filesystem_warning : string :=
  ("[警告] 文件系统初始化失败，继续启动..." ++ nl)%string.
Definition msg_graphics_warning : string :=
  ("[警告] 图形界面初始化失败，继续启动..." ++ nl)%string.
Definition msg_hot_services_failed : string :=
  ("[错误] 热服务初始化失败！" ++ nl)%string.
Definition msg_exiting : string :=
  (nl ++ "[内核] 正在退出UEFI启动服务..." ++ nl)%string.
Definition msg_no_map_size : string :=
  ("[错误] 无法获取内存映射大小" ++ nl)%string.
Definition msg_exit_failed : string :=
  ("[错误] 无法退出启动服务" ++ nl)%string.
Definition msg_exited : string :=
  ("[内核] 已成功退出UEFI启动服务" ++ nl)%string.
Definition msg_done_top : string :=
  (nl ++ "========================================" ++ nl)%string.
Definition msg_done_title : string :=
  ("    leafOS 内核启动完成！" ++ nl)%string.
Definition msg_entering_loop : string :=
  ("    正在进入内核主循环..." ++ nl)%string.

(** The tags of the two kinds of diagnostics. *)
Definition is_error (s : string) : bool := String.prefix "[错误]" s.
Definition is_warning (s : string) : bool := String.prefix "[警告]" s.

(** The name a message of [main] gives to a module. *)
Definition module_name (m : module) : string :=
  match m with
  | Memory => "内存管理器"
  | Devices => "设备驱动"
  | FileSystem => "文件系统"
  | Graphics => "图形界面"
  | HotServices => "热服务"
  end.

Fixpoint mentions (name s : string) : bool :=
  String.prefix name s ||
  match s with
  | EmptyString => false
  | String _ s' => mentions name s'
  end.

(** ** The module initializers of the source *)

Section Modules.

Variable uart_read : nat -> byte.

Definition init_memory_manager : run uart bool :=
  debug_puts uart_read (c_str ("[内存] 正在初始化内存管理器..." ++ nl));;
  debug_puts uart_read (c_str ("[内存] 内存管理器初始化完成" ++ nl));;
  ret true.

Definition init_device_drivers : run uart bool :=
  debug_puts uart_read (c_str ("[设备] 正在初始化设备驱动..." ++ nl));;
  debug_puts uart_read (c_str ("[设备] 设备驱动初始化完成" ++ nl));;
  ret true.

Definition init_file_system : run uart bool :=
  debug_puts uart_read (c_str ("[文件系统] 正在初始化文件系统..." ++ nl));;
  debug_puts uart_read (c_str ("[文件系统] 文件系统初始化完成" ++ nl));;
  ret true.

Definition init_graphics : run uart bool :=
  debug_puts uart_read (c_str ("[图形] 正在初始化图形界面..." ++ nl));;
  debug_puts uart_read (c_str ("[图形] 图形界面初始化完成" ++ nl));;
  ret true.

Definition init_hot_services : run uart bool :=
  debug_puts uart_read (c_str ("[热服务] 正在初始化热服务..." ++ nl));;
  debug_puts uart_read (c_str ("[热服务] 热服务初始化完成" ++ nl));;
  ret true.

Definition source_inits (m : module) : run uart bool :=
  match m with
  | Memory => init_memory_manager
  | Devices => init_device_drivers
  | FileSystem => init_file_system
  | Graphics => init_graphics
  | HotServices => init_hot_services
  end.

End Modules.

(** ** The entry routine *)

Inductive boot_result : Type :=
| Abort (status : EFI_STATUS)
| Proceed.

Section Kernel.

Variable uart_read : nat -> byte.
Variable F : Type.

(** The initializer of each module, [source_inits] in the source. *)
Variable inits : module -> run uart bool.

(** A call of [debug_puts] by [main]. *)
Definition puts (s : string) : run (world F) unit :=
  emit (Puts s);; on_hw (debug_puts uart_read (c_str s)).

(** A call of a module initializer by [main]. *)
Definition invoke (m : module) : run (world F) bool :=
  emit (Invoke m);; on_hw (inits m).

(** Phase 1: the three globals. *)
Definition capture (SystemTable : EFI_SYSTEM_TABLE F) (ImageHandle : EFI_HANDLE)
  : run (world F) unit :=
  fun _ w =>
    Some (tt, mkWorld (hw w) (fw w) (Some SystemTable) ImageHandle
                (Some (BootServices SystemTable)) (trace w)).

(** [gBootServices->GetMemoryMap(&mapSize, MemoryMap, &mapKey,
    &descriptorSize, &descriptorVersion)]: the status and the variables
    after the call.  A null [gBootServices] is undefined. *)
Definition call_GetMemoryMap (vars : map_vars) (MemoryMap : option Z)
  : run (world F) (EFI_STATUS * map_vars) :=
  fun _ w =>
    match gBootServices w with
    | None => None
    | Some bs =>
        let '(status, vars', f') := GetMemoryMap bs vars MemoryMap (fw w) in
        let status := to_UINTN status in
        let vars' := mkMapVars (MemoryMapSize vars') (to_UINTN (MapKey vars'))
                       (DescriptorSize vars') (DescriptorVersion vars') in
        Some ((status, vars'),
              add_event (set_fw w f')
                (GetMemoryMapCall (MemoryMapSize vars) MemoryMap status
                   (MapKey vars')))
    end.

(** [gBootServices->ExitBootServices(ImageHandle, mapKey)] *)
Definition call_ExitBootServices (ImageHandle : EFI_HANDLE) (mapKey : Z)
  : run (world F) EFI_STATUS :=
  fun _ w =>
    match gBootServices w with
    | None => None
    | Some bs =>
        let '(status, f') := ExitBootServices bs ImageHandle mapKey (fw w) in
        let status := to_UINTN status in
        Some (status,
              add_event (set_fw w f')
                (ExitBootServicesCall ImageHandle mapKey status))
    end.

(** Phases 1 to 3 of [main], up to the [while (true)] of phase 4: a
    [return status] of the source is [Abort status], reaching the loop is
    [Proceed]. *)
Definition boot_sequence (SystemTable : EFI_SYSTEM_TABLE F)
    (ImageHandle : EFI_HANDLE) : run (world F) boot_result :=
  capture SystemTable ImageHandle;;
  puts msg_banner_top;;
  puts msg_banner_title;;
  puts msg_banner_bottom;;
  puts msg_modules_start;;
  ok <- invoke Memory;;
  if negb ok then
    puts msg_memory_failed;;
    ret (Abort EFI_OUT_OF_RESOURCES)
  else
  ok <- invoke Devices;;
  (if negb ok then puts msg_devices_warning else ret tt);;
  ok <- invoke FileSystem;;
  (if negb ok then puts msg_filesystem_warning else ret tt);;
  ok <- invoke Graphics;;
  (if negb ok then puts msg_graphics_warning else ret tt);;
  ok <- invoke HotServices;;
  if negb ok then
    puts msg_hot_services_failed;;
    ret (Abort EFI_DEVICE_ERROR)
  else
  puts msg_exiting;;
  r <- call_GetMemoryMap (mkMapVars 0 0 0 0) None;;
  let status := fst r in
  let mapKey := MapKey (snd r) in
  if negb (status =? EFI_BUFFER_TOO_SMALL) then
    puts msg_no_map_size;;
    ret (Abort status)
  else
  status <- call_ExitBootServices ImageHandle mapKey;;
  if EFI_ERROR status then
    puts msg_exit_failed;;
    ret (Abort status)
  else
  puts msg_exited;;
  puts msg_done_top;;
  puts msg_done_title;;
  puts msg_entering_loop;;
  puts msg_banner_bottom;;
  ret Proceed.

(** Phase 4, [while (true)]: the delay loop has no effect, then the
    heartbeat.  No iteration leaves the loop, so no bound gives a
    result. *)
Fixpoint kernel_loop (fuel : nat) (w : world F) : option (EFI_STATUS * world F) :=
  match fuel with
  | O => None
  | S fuel' =>
      (on_hw (debug_putc uart_read "."%byte);;
       (fun _ => kernel_loop fuel')) fuel' w
  end.

Definition main (SystemTable : EFI_SYSTEM_TABLE F) (ImageHandle : EFI_HANDLE)
  : run (world F) EFI_STATUS :=
  r <- boot_sequence SystemTable ImageHandle;;
  match r with
  | Abort status => ret status
  | Proceed => kernel_loop
  end.

End Kernel.

(** ** Reading a trace *)

Fixpoint invoked (tr : list event) : list module :=
  match tr with
  | [] => []
  | Invoke m :: tr' => m :: invoked tr'
  | _ :: tr' => invoked tr'
  end.

Fixpoint diagnostics (tr : list event) : list string :=
  match tr with
  | [] => []
  | Puts s :: tr' => s :: diagnostics tr'
  | _ :: tr' => diagnostics tr'
  end.

Definition errors (tr : list event) : list string :=
  filter is_error (diagnostics tr).

Definition warnings (tr : list event) : list string :=
  filter is_warning (diagnostics tr).

(** The events of a trace that belong to the sequencer: the calls of the
    initializers and the warnings. *)
Definition sequencer_events (tr : list event) : list event :=
  filter (fun e => match e with
                   | Invoke _ => true
                   | Puts s => is_warning s
                   | _ => false
                   end) tr.

Definition is_firmware_call (e : event) : bool :=
  match e with
  | GetMemoryMapCall _ _ _ _ | ExitBootServicesCall _ _ _ => true
  | _ => false
  end.

Definition firmware_calls (tr : list event) : list event :=
  filter is_firmware_call tr.


(** The exit protocol of the firmware contract, read on a trace: every
    call of the exit primitive carries the key of the latest memory-map
    query before it, and that query succeeded with a buffer.  [latest] is
    the key of the latest query when it was such a one. *)
Fixpoint exits_use_snapshot_key (latest : option Z) (tr : list event) : bool :=
  match tr with
  | [] => true
  | GetMemoryMapCall _ MemoryMap status key :: tr' =>
      exits_use_snapshot_key
        (match MemoryMap with
         | Some _ => if status =? EFI_SUCCESS then Some key else None
         | None => None
         end) tr'
  | ExitBootServicesCall _ key _ :: tr' =>
      match latest with
      | Some k => (key =? k) && exits_use_snapshot_key latest tr'
      | None => false
      end
  | _ :: tr' => exits_use_snapshot_key latest tr'
  end.


(** ** The traces of the paths of [main] *)

Definition preamble : list event :=
  [Puts msg_banner_top; Puts msg_banner_title; Puts msg_banner_bottom;
   Puts msg_modules_start].

(** The warning of a recoverable module, when its initializer returned
    [false]. *)
Definition warned (ok : bool) (s : string) : list event :=
  if ok then [] else [Puts s].

(** Memory has succeeded; the three recoverable modules returned [d], [f]
    and [g]; the hot services are called. *)
Definition modules_trace (d f g : bool) : list event :=
  [Invoke Memory; Invoke Devices] ++ warned d msg_devices_warning ++
  [Invoke FileSystem] ++ warned f msg_filesystem_warning ++
  [Invoke Graphics] ++ warned g msg_graphics_warning ++
  [Invoke HotServices].

Definition completion : list event :=
  [Puts msg_exited; Puts msg_done_top; Puts msg_done_title;
   Puts msg_entering_loop; Puts msg_banner_bottom].

(** ** Assumptions on the environment *)

(** From every read on, some read finds the transmit buffer empty. *)
Definition eventually_empty (uart_read : nat -> byte) : Prop :=
  forall k : nat, exists j : nat, (k <= j)%nat /\ tx_empty (uart_read j) = true.

(** The routine returns from every state. *)
Definition total {A : Type} (m : run uart A) : Prop :=
  forall u : uart, exists (a : A) (u' : uart), converges m u a u'.

(** The routine returns [a] from every state. *)
Definition reports {A : Type} (m : run uart A) (a : A) : Prop :=
  forall u : uart, exists u' : uart, converges m u a u'.

(** The routines of an array return, all of them. *)
Definition entries_total (entries : list entry) : Prop :=
  Forall (fun e : entry =>
            match e with
            | Some f => total f
            | None => True
            end) entries.

(** The memory manager and the hot services are up, the recoverable
    modules return [d], [f] and [g]. *)
Definition modules_up (inits : module -> run uart bool) (d f g : bool) : Prop :=
  reports (inits Memory) true /\ reports (inits Devices) d /\
  reports (inits FileSystem) f /\ reports (inits Graphics) g /\
  reports (inits HotServices) true.

(** The size probe of [main] answered by the firmware in state [f]. *)
Definition probe {F : Type} (bs : EFI_BOOT_SERVICES F) (f : F)
  : EFI_STATUS * map_vars * F :=
  GetMemoryMap bs (mkMapVars 0 0 0 0) None f.

Definition probe_status {F : Type} (bs : EFI_BOOT_SERVICES F) (f : F) : EFI_STATUS :=
  to_UINTN (fst (fst (probe bs f))).

Definition probe_key {F : Type} (bs : EFI_BOOT_SERVICES F) (f : F) : Z :=
  to_UINTN (MapKey (snd (fst (probe bs f)))).

(** The exit call that follows the probe. *)
Definition exit_status {F : Type} (bs : EFI_BOOT_SERVICES F) (h : EFI_HANDLE) (f : F)
  : EFI_STATUS :=
  to_UINTN (fst (ExitBootServices bs h (probe_key bs f) (snd (probe bs f)))).

(** What the boot sequence can end with, the firmware being in state [f0]
    at the start: the statuses of a return, and the condition of the entry
    into the loop. *)
Definition boot_outcome {F : Type} (bs : EFI_BOOT_SERVICES F) (h : EFI_HANDLE)
    (f0 : F) (r : boot_result) : Prop :=
  match r with
  | Abort status =>
      status = EFI_OUT_OF_RESOURCES \/
      status = EFI_DEVICE_ERROR \/
      (status = probe_status bs f0 /\ status <> EFI_BUFFER_TOO_SMALL) \/
      (probe_status bs f0 = EFI_BUFFER_TOO_SMALL /\
       status = exit_status bs h f0 /\
       EFI_ERROR status = true)
  | Proceed =>
      probe_status bs f0 = EFI_BUFFER_TOO_SMALL /\
      EFI_ERROR (exit_status bs h f0) = false
  end.

(** ** Test doubles *)

(** A transmit buffer that is always empty. *)
Definition always_ready : nat -> byte := fun _ => x20.

(** A transmit buffer that is empty at every other read. *)
Definition every_other : nat -> byte :=
  fun k => if Nat.even k then x00 else x20.

(** Initializers that write nothing and return what [r] says. *)
Definition inits_returning (r : module -> bool) : module -> run uart bool :=
  fun m => ret (r m).

Definition all_but (failing : list module) (m : module) : bool :=
  negb (existsb
          (fun m' =>
             match m, m' with
             | Memory, Memory | Devices, Devices | FileSystem, FileSystem
             | Graphics, Graphics | HotServices, HotServices => true
             | _, _ => false
             end) failing).

(** A firmware without state: the two calls return fixed statuses and the
    query reports a map of 4800 bytes under the key 7. *)
Definition fixed_firmware (query_status exit_status : EFI_STATUS)
  : EFI_BOOT_SERVICES unit :=
  mkBootServices
    (fun vars _ f =>
       (query_status, mkMapVars 4800 7 48 1, f))
    (fun _ _ f => (exit_status, f)).

(** A firmware that keeps the current map key as its state.  A query with
    too small a buffer reports the size and leaves the key variable alone;
    a query with a large enough buffer returns the key.  The exit call
    succeeds with the current key and returns [stale] with any other. *)
Definition keyed_firmware (stale : EFI_STATUS) : EFI_BOOT_SERVICES Z :=
  mkBootServices
    (fun vars MemoryMap key =>
       match MemoryMap with
       | Some _ =>
           if 4800 <=? MemoryMapSize vars
           then (EFI_SUCCESS, mkMapVars 4800 key 48 1, key)
           else (EFI_BUFFER_TOO_SMALL,
                 mkMapVars 4800 (MapKey vars) 48 1, key)
       | None =>
           (EFI_BUFFER_TOO_SMALL, mkMapVars 4800 (MapKey vars) 48 1, key)
       end)
    (fun _ mapKey key =>
       if mapKey =? key then (EFI_SUCCESS, key) else (stale, key)).

(** [EFI_INVALID_PARAMETER] as the UEFI specification encodes it, with the
    high bit set. *)
Definition UEFI_INVALID_PARAMETER : EFI_STATUS := 2 ^ 63 + 2.

Definition put_byte (c : byte) : entry := Some (debug_putc always_ready c).

(** ** Memory helpers: [memcpy], [memset], [strlen] *)

(** The memory, byte by byte.  Addresses are not reduced: pointer
    arithmetic that leaves the address space is undefined in the source. *)
Definition memory : Type := Z -> byte.

Definition store (m : memory) (a : Z) (b : byte) : memory :=
  fun x => if x =? a then b else m x.

(** Conversion of an [int] to [uint8_t], and to the byte of a [char]. *)
Definition to_uint8 (z : Z) : byte :=
  match Byte.of_N (Z.to_N (z mod 256)) with
  | Some b => b
  | None => x00
  end.

(** Conversion to [int] (32 bits, two's complement). *)
Definition to_int (z : Z) : Z :=
  let u := z mod 2 ^ 32 in
  if u <? 2 ^ 31 then u else u - 2 ^ 32.

(** The loop of [memcpy] with [n] bytes to go, [d] and [s] the two
    pointers. *)
Fixpoint memcpy_loop (n : nat) (d s : Z) (m : memory) : memory :=
  match n with
  | O => m
  | S n' => memcpy_loop n' (d + 1) (s + 1) (store m d (m s))
  end.

(** [memcpy(dest, src, n)]: the value returned and the memory after. *)
Definition memcpy (dest src n : Z) (m : memory) : Z * memory :=
  (dest, memcpy_loop (Z.to_nat (to_UINTN n)) dest src m).

(** The loop of [memset] with [n] bytes to go, [p] the pointer. *)
Fixpoint memset_loop (n : nat) (p : Z) (c : Z) (m : memory) : memory :=
  match n with
  | O => m
  | S n' => memset_loop n' (p + 1) c (store m p (to_uint8 c))
  end.

(** [memset(s, c, n)] *)
Definition memset (s c n : Z) (m : memory) : Z * memory :=
  (s, memset_loop (Z.to_nat (to_UINTN n)) s c m).

(** The loop of [strlen]: [str] is the memory from [str[len]] on, reading
    past it is undefined ([None]); [len] is a [size_t]. *)
Fixpoint strlen_from (str : list byte) (len : Z) : option Z :=
  match str with
  | [] => None
  | c :: str' =>
      if Byte.eqb c x00 then Some len
      else strlen_from str' (to_UINTN (len + 1))
  end.

Definition strlen (str : list byte) : option Z := strlen_from str 0.

(** ** [kernel_assert] *)

Definition msg_assert_failed : string :=
  (nl ++ nl ++ "[内核断言失败] ")%string.
Definition msg_assert_colon : string := ":".
Definition msg_assert_halted : string :=
  (nl ++ "系统已挂起" ++ nl)%string.

(** The [do ... while (n > 0)] of [kernel_assert]: the characters stored
    in [lineStr], from [lineStr[0]] on, [room] being the number of free
    slots of the array.  [None]: a store past the array. *)
Fixpoint line_digits (room : nat) (n : Z) : option (list byte) :=
  match room with
  | O => None
  | S room' =>
      let c := to_uint8 (Z.rem n 10 + 48) in
      let n' := Z.quot n 10 in
      if 0 <? n' then option_map (cons c) (line_digits room' n')
      else Some [c]
  end.

(** The bytes of a digit string read as a decimal number, first byte
    most significant. *)
Definition decimal_value (digits : list byte) : Z :=
  fold_left (fun acc b => 10 * acc + (Z.of_N (Byte.to_N b) - 48)) digits 0.

(** The characters of [lineStr] read as a number, [lineStr[0]] least
    significant. *)
Definition lsb_value (lineStr : list byte) : Z :=
  fold_right (fun b acc => 10 * acc + (Z.of_N (Byte.to_N b) - 48)) 0 lineStr.

Definition is_digit (b : byte) : bool :=
  (48 <=? Z.of_N (Byte.to_N b)) && (Z.of_N (Byte.to_N b) <=? 57).

Section Assert.

Variable uart_read : nat -> byte.

(** [for (int j = i - 1; j >= 0; j--) debug_putc(lineStr[j]);] on the
    characters in the order of the calls. *)
Fixpoint putc_all (cs : list byte) : run uart unit :=
  match cs with
  | [] => ret tt
  | c :: cs' => debug_putc uart_read c;; putc_all cs'
  end.

(** What [kernel_assert] does for a false condition, up to the final
    loop. *)
Definition kernel_assert_report (file : list byte) (line : Z) : run uart unit :=
  debug_puts uart_read (c_str msg_assert_failed);;
  debug_puts uart_read file;;
  debug_puts uart_read (c_str msg_assert_colon);;
  match line_digits 16 (to_int line) with
  | Some lineStr => putc_all (rev lineStr)
  | None => undefined
  end;;
  debug_puts uart_read (c_str msg_assert_halted).

(** [while (true) { asm volatile ("hlt"); }] *)
Fixpoint halt (fuel : nat) (u : uart) : option (unit * uart) :=
  match fuel with
  | O => None
  | S fuel' => halt fuel' u
  end.

Definition kernel_assert (condition : bool) (file : list byte) (line : Z)
  : run uart unit :=
  if negb condition then kernel_assert_report file line;; halt
  else ret tt.

End Assert.

(** A transmit buffer that is never empty. *)
Definition never_ready : nat -> byte := fun _ => x00.

(** A memory for examples: the byte at address [a] is [a mod 256]. *)
Definition ramp : memory := fun a => to_uint8 a.

(** ** The diagnostics on the wire *)

(** The two lines that the initializer of a module writes in the source. *)
Definition init_lines (m : module) : string * string :=
  match m with
  | Memory =>
      ("[内存] 正在初始化内存管理器..." ++ nl, "[内存] 内存管理器初始化完成" ++ nl)
  | Devices =>
      ("[设备] 正在初始化设备驱动..." ++ nl, "[设备] 设备驱动初始化完成" ++ nl)
  | FileSystem =>
      ("[文件系统] 正在初始化文件系统..." ++ nl, "[文件系统] 文件系统初始化完成" ++ nl)
  | Graphics =>
      ("[图形] 正在初始化图形界面..." ++ nl, "[图形] 图形界面初始化完成" ++ nl)
  | HotServices =>
      ("[热服务] 正在初始化热服务..." ++ nl, "[热服务] 热服务初始化完成" ++ nl)
  end%string.

(** The text an event of [main] puts on the diagnostic channel, before
    line feeds are followed by carriage returns: the argument of a
    [debug_puts], the two lines of an initializer of the source, nothing
    for a firmware call. *)
Definition text_of (e : event) : list byte :=
  match e with
  | Puts s => list_byte_of_string s
  | Invoke m =>
      list_byte_of_string (fst (init_lines m)) ++
      list_byte_of_string (snd (init_lines m))
  | _ => []
  end.

(** ** The machine along a trace *)

(** How the machine goes from one state to another along the events of a
    trace: a [debug_puts] of [main] is a run of [debug_puts] on its string,
    from the state the machine is in to the state it returns in; the call
    of an initializer is a run of that initializer, in the same way; a
    firmware call leaves the machine as it is. *)
Inductive machine_follows (uart_read : nat -> byte)
    (inits : module -> run uart bool)
  : list event -> uart -> uart -> Prop :=
| follows_nil (u : uart) : machine_follows uart_read inits [] u u
| follows_puts (s : string) (tr : list event) (u u1 u2 : uart) :
    converges (debug_puts uart_read (c_str s)) u tt u1 ->
    machine_follows uart_read inits tr u1 u2 ->
    machine_follows uart_read inits (Puts s :: tr) u u2
| follows_invoke (m : module) (b : bool) (tr : list event) (u u1 u2 : uart) :
    converges (inits m) u b u1 ->
    machine_follows uart_read inits tr u1 u2 ->
    machine_follows uart_read inits (Invoke m :: tr) u u2
| follows_firmware (e : event) (tr : list event) (u u2 : uart) :
    is_firmware_call e = true ->
    machine_follows uart_read inits tr u u2 ->
    machine_follows uart_read inits (e :: tr) u u2.

(** The bytes [debug_puts] sends for the string of a call of [main]: those
    before its first zero byte. *)
Definition puts_text (e : event) : list byte :=
  match e with
  | Puts s => c_prefix (c_str s)
  | _ => []
  end.


(** How the machine goes through the entries of an array: an entry that
    is not null runs, from the state the entry before it left; a null
    entry changes nothing. *)
Inductive entries_run : list entry -> uart -> uart -> Prop :=
| run_nil (u : uart) : entries_run [] u u
| run_entry (f : run uart unit) (entries : list entry) (u u1 u2 : uart) :
    converges f u tt u1 ->
    entries_run entries u1 u2 ->
    entries_run (Some f :: entries) u u2
| run_null (entries : list entry) (u u2 : uart) :
    entries_run entries u u2 ->
    entries_run (None :: entries) u u2.

(** * Proofs *)

(** ** The judgement [converges] *)

Lemma converges_ret {S A : Type} (a : A) (s : S) : converges (ret a) s a s.
Proof.
  split.
  - exists O. reflexivity.
  - intros n r H. inversion H. reflexivity.
Qed.

(** A computation that needs no step. *)
Lemma converges_always {S A : Type} (m : run S A) (s s' : S) (a : A) :
  (forall n : nat, m n s = Some (a, s')) -> converges m s a s'.
Proof.
  intros H. split.
  - exists O. intros n _. apply H.
  - intros n r E. rewrite H in E. inversion E. reflexivity.
Qed.

Lemma converges_bind {S A B : Type} (m : run S A) (f : A -> run S B)
    (s s1 s2 : S) (a : A) (b : B) :
  converges m s a s1 -> converges (f a) s1 b s2 ->
  converges (bind m f) s b s2.
Proof.
  intros [[n1 E1] U1] [[n2 E2] U2]. split.
  - exists (Nat.max n1 n2). intros n Hn. unfold bind.
    rewrite E1 by lia. apply E2. lia.
  - intros n r. unfold bind.
    destruct (m n s) as [[a' s']|] eqn:Em; [|discriminate].
    apply U1 in Em. inversion Em; subst. apply U2.
Qed.

Lemma converges_unique {S A : Type} (m : run S A) (s s1 s2 : S) (a1 a2 : A) :
  converges m s a1 s1 -> converges m s a2 s2 -> a1 = a2 /\ s1 = s2.
Proof.
  intros [[n1 E1] _] [_ U2].
  specialize (U2 n1 _ (E1 n1 (le_n n1))). inversion U2. auto.
Qed.

(** At no bound does a converging computation give another result. *)
Lemma converges_at {S A : Type} (m : run S A) (s s' : S) (a : A) (n : nat) :
  converges m s a s' -> m n s = None \/ m n s = Some (a, s').
Proof.
  intros [_ U]. destruct (m n s) as [r|] eqn:E; [right|left; reflexivity].
  rewrite (U n r E). reflexivity.
Qed.

(** ** Weakest preconditions for total correctness *)

Lemma wp_ret {S A : Type} (a : A) (s : S) (Q : A -> S -> Prop) :
  Q a s -> wp (ret a) s Q.
Proof. intros H. exists a, s. split; [apply converges_ret|exact H]. Qed.

Lemma wp_bind {S A B : Type} (m : run S A) (f : A -> run S B) (s : S)
    (Q : B -> S -> Prop) :
  wp m s (fun a s1 => wp (f a) s1 Q) -> wp (bind m f) s Q.
Proof.
  intros (a & s1 & Hm & b & s2 & Hf & HQ).
  exists b, s2. split; [eapply converges_bind; eassumption|exact HQ].
Qed.

Lemma wp_weaken {S A : Type} (m : run S A) (s : S) (Q Q' : A -> S -> Prop) :
  wp m s Q -> (forall a s', Q a s' -> Q' a s') -> wp m s Q'.
Proof. intros (a & s' & Hm & HQ) H. exists a, s'. auto. Qed.

Lemma wp_emit {F : Type} (e : event) (w : world F) (Q : unit -> world F -> Prop) :
  Q tt (add_event w e) -> wp (emit e) w Q.
Proof.
  intros H. exists tt, (add_event w e). split; [|exact H]. split.
  - exists O. reflexivity.
  - intros n r E. inversion E. reflexivity.
Qed.

Lemma converges_on_hw {F A : Type} (m : run uart A) (w : world F) (a : A) (u : uart) :
  converges m (hw w) a u -> converges (on_hw m) w a (set_hw w u).
Proof.
  intros [[n0 E] U]. split.
  - exists n0. intros n Hn. unfold on_hw. rewrite E by exact Hn. reflexivity.
  - intros n r. unfold on_hw.
    destruct (m n (hw w)) as [[a' u']|] eqn:Em; [|discriminate].
    apply U in Em. inversion Em; subst. intros H. inversion H. reflexivity.
Qed.

Lemma wp_on_hw {F A : Type} (m : run uart A) (w : world F)
    (Q : A -> world F -> Prop) :
  wp m (hw w) (fun a u => Q a (set_hw w u)) -> wp (on_hw m) w Q.
Proof.
  intros (a & u & Hm & HQ). exists a, (set_hw w u).
  split; [apply converges_on_hw; exact Hm|exact HQ].
Qed.

(** ** The diagnostic channel *)

Lemma tx_of_app (l1 l2 : list bus_op) : tx_of (l1 ++ l2) = tx_of l1 ++ tx_of l2.
Proof.
  induction l1 as [|[v|b] l1 IH]; simpl; [reflexivity|exact IH|].
  rewrite IH. reflexivity.
Qed.

Lemma byte_sent_tx (c : byte) (l : list bus_op) : byte_sent c l -> tx_of l = [c].
Proof. induction 1; simpl; auto. Qed.

Lemma bytes_sent_tx (cs : list byte) (l : list bus_op) :
  bytes_sent cs l -> tx_of l = cs.
Proof.
  induction 1 as [|c cs l1 l2 H1 _ IH]; [reflexivity|].
  rewrite tx_of_app, (byte_sent_tx _ _ H1), IH. reflexivity.
Qed.

Lemma bytes_sent_app (cs1 cs2 : list byte) (l1 l2 : list bus_op) :
  bytes_sent cs1 l1 -> bytes_sent cs2 l2 -> bytes_sent (cs1 ++ cs2) (l1 ++ l2).
Proof.
  induction 1 as [|c cs l l' Hc _ IH]; intros H2; [exact H2|].
  rewrite <- app_assoc. simpl. constructor; auto.
Qed.

Lemma bytes_sent_one (c : byte) (l : list bus_op) :
  byte_sent c l -> bytes_sent [c] l.
Proof.
  intros H. rewrite <- (app_nil_r l). constructor; [exact H|constructor].
Qed.

Lemma byte_eqb_eq (a b : byte) : Byte.eqb a b = true <-> a = b.
Proof.
  split.
  - intros H. apply Byte.byte_dec_bl. exact H.
  - intros H. apply Byte.byte_dec_lb. exact H.
Qed.

Lemma c_prefix_terminated (s rest : list byte) :
  ~ In x00 s -> c_prefix (s ++ x00 :: rest) = s.
Proof.
  induction s as [|c s IH]; intros H; simpl; [reflexivity|].
  destruct (Byte.eqb c x00) eqn:E.
  - apply byte_eqb_eq in E. subst c. exfalso. apply H. left. reflexivity.
  - rewrite IH; [reflexivity|]. intros Hin. apply H. right. exact Hin.
Qed.

Lemma c_str_terminated (s : string) : In x00 (c_str s).
Proof. unfold c_str. apply in_or_app. right. left. reflexivity. Qed.

Section ChannelProofs.

Variable uart_read : nat -> byte.

Lemma wait_tx_empty_at (d : nat) :
  forall u : uart,
    tx_empty (uart_read (polls u + d)) = true ->
    exists (u' : uart) (l : list bus_op),
      converges (wait_tx_empty uart_read) u tt u' /\
      bus u' = bus u ++ l /\
      forall c : byte, byte_sent c (l ++ [BusWrite c]).
Proof.
  induction d as [|d IH]; intros u Hd;
    destruct (tx_empty (uart_read (polls u))) eqn:E.
  1, 3:
    exists (mkUart (S (polls u)) (bus u ++ [BusRead (uart_read (polls u))])),
           [BusRead (uart_read (polls u))];
    (split; [split|split]);
    [ exists 1%nat; intros [|n] Hn; [lia|]; simpl; unfold bind, uart_poll;
      rewrite E; reflexivity
    | intros [|n] r; [discriminate|]; simpl; unfold bind, uart_poll;
      rewrite E; intros H; inversion H; reflexivity
    | reflexivity
    | intros c; apply sent_now; exact E ].
  - rewrite Nat.add_0_r in Hd. congruence.
  - set (u1 := mkUart (S (polls u)) (bus u ++ [BusRead (uart_read (polls u))])).
    destruct (IH u1) as (u' & l & [[n0 Ev] Un] & Hb & Hs).
    { simpl. rewrite <- Nat.add_succ_r. exact Hd. }
    exists u', (BusRead (uart_read (polls u)) :: l). split; [split|split].
    + exists (S n0). intros [|n] Hn; [lia|]. simpl. unfold bind, uart_poll.
      rewrite E. apply Ev. lia.
    + intros [|n] r; [discriminate|]. simpl. unfold bind, uart_poll.
      rewrite E. apply Un.
    + rewrite Hb. unfold u1. simpl. rewrite <- app_assoc. reflexivity.
    + intros c. simpl. apply sent_later; [exact E|apply Hs].
Qed.

Hypothesis fair : eventually_empty uart_read.

Lemma wait_tx_empty_spec (u : uart) :
  exists (u' : uart) (l : list bus_op),
    converges (wait_tx_empty uart_read) u tt u' /\
    bus u' = bus u ++ l /\
    forall c : byte, byte_sent c (l ++ [BusWrite c]).
Proof.
  destruct (fair (polls u)) as (j & Hj & Hr).
  apply (wait_tx_empty_at (j - polls u)).
  replace (polls u + (j - polls u))%nat with j by lia. exact Hr.
Qed.

(** A byte that is not a line feed: the wait, then the write. *)
Lemma debug_putc_plain (c : byte) (u : uart) :
  Byte.eqb c LF = false ->
  exists (u' : uart) (l : list bus_op),
    converges (debug_putc uart_read c) u tt u' /\
    bus u' = bus u ++ l /\ byte_sent c l.
Proof.
  intros Hc. destruct (wait_tx_empty_spec u) as (u1 & l & [[n0 Ev] Un] & Hb & Hs).
  exists (mkUart (polls u1) (bus u1 ++ [BusWrite c])), (l ++ [BusWrite c]).
  split; [split|split].
  - exists (S n0). intros [|n] Hn; [lia|]. simpl. unfold bind.
    rewrite Ev by lia. unfold uart_write. rewrite Hc. reflexivity.
  - intros [|n] r; [discriminate|]. simpl. unfold bind.
    destruct (wait_tx_empty uart_read n u) as [[[] u1']|] eqn:Ew; [|discriminate].
    apply Un in Ew. inversion Ew; subst u1'. unfold uart_write. rewrite Hc.
    intros H. inversion H. reflexivity.
  - simpl. rewrite Hb, app_assoc. reflexivity.
  - apply Hs.
Qed.

Lemma debug_putc_spec (c : byte) (u : uart) :
  exists (u' : uart) (l : list bus_op),
    converges (debug_putc uart_read c) u tt u' /\
    bus u' = bus u ++ l /\ bytes_sent (crlf c) l.
Proof.
  unfold crlf. destruct (Byte.eqb c LF) eqn:Hc.
  - destruct (wait_tx_empty_spec u) as (u1 & l & [[n0 Ev] Un] & Hb & Hs).
    set (u2 := mkUart (polls u1) (bus u1 ++ [BusWrite c])).
    destruct (debug_putc_plain CR u2 eq_refl) as (u' & l' & [[n1 Ev'] Un'] & Hb' & Hs').
    apply byte_eqb_eq in Hc. subst c.
    exists u', ((l ++ [BusWrite LF]) ++ l'). split; [split|split].
    + exists (S (Nat.max n0 n1)). intros [|n] Hn; [lia|]. simpl. unfold bind.
      rewrite Ev by lia. unfold uart_write. apply Ev'. lia.
    + intros [|n] r; [discriminate|]. simpl. unfold bind.
      destruct (wait_tx_empty uart_read n u) as [[[] u1']|] eqn:Ew; [|discriminate].
      apply Un in Ew. inversion Ew; subst u1'. unfold uart_write. apply Un'.
    + rewrite Hb'. unfold u2. simpl. rewrite Hb, !app_assoc. reflexivity.
    + constructor; [apply Hs|apply bytes_sent_one; exact Hs'].
  - destruct (debug_putc_plain c u Hc) as (u' & l & Hconv & Hb & Hs).
    exists u', l. split; [exact Hconv|split; [exact Hb|apply bytes_sent_one; exact Hs]].
Qed.

Lemma debug_puts_spec (str : list byte) :
  In x00 str ->
  forall u : uart,
  exists (u' : uart) (l : list bus_op),
    converges (debug_puts uart_read str) u tt u' /\
    bus u' = bus u ++ l /\ bytes_sent (flat_map crlf (c_prefix str)) l.
Proof.
  induction str as [|c str IH]; intros Hin u; [destruct Hin|].
  simpl. destruct (Byte.eqb c x00) eqn:E.
  - exists u, []. split; [apply converges_ret|].
    split; [rewrite app_nil_r; reflexivity|constructor].
  - destruct Hin as [H0|Hin]; [subst c; discriminate|].
    destruct (debug_putc_spec c u) as (u1 & l1 & Hc1 & Hb1 & Hs1).
    destruct (IH Hin u1) as (u2 & l2 & Hc2 & Hb2 & Hs2).
    exists u2, (l1 ++ l2). split; [|split].
    + eapply converges_bind; eassumption.
    + rewrite Hb2, Hb1, app_assoc. reflexivity.
    + simpl. apply bytes_sent_app; assumption.
Qed.

End ChannelProofs.

(** ** Rules for the calls of [main] *)

Lemma kernel_loop_never_returns (uart_read : nat -> byte) (F : Type) (n : nat) :
  forall w : world F, kernel_loop uart_read F n w = None.
Proof.
  induction n as [|n IH]; intros w; [reflexivity|].
  simpl. unfold bind.
  destruct (on_hw (debug_putc uart_read ".") n w) as [[[] w']|]; [apply IH|reflexivity].
Qed.

Section KernelRules.

Variable uart_read : nat -> byte.
Variable F : Type.
Variable inits : module -> run uart bool.
Hypothesis fair : eventually_empty uart_read.

Lemma wp_puts (s : string) (w : world F) (Q : unit -> world F -> Prop) :
  (forall u : uart, Q tt (set_hw (add_event w (Puts s)) u)) ->
  wp (puts uart_read F s) w Q.
Proof.
  intros H. unfold puts. apply wp_bind, wp_emit, wp_on_hw.
  destruct (debug_puts_spec uart_read fair (c_str s) (c_str_terminated s)
              (hw (add_event w (Puts s)))) as (u & l & Hc & _).
  exists tt, u. split; [exact Hc|apply H].
Qed.

Lemma wp_invoke_reports (m : module) (b : bool) (w : world F)
    (Q : bool -> world F -> Prop) :
  reports (inits m) b ->
  (forall u : uart, Q b (set_hw (add_event w (Invoke m)) u)) ->
  wp (invoke F inits m) w Q.
Proof.
  intros Hr H. unfold invoke. apply wp_bind, wp_emit, wp_on_hw.
  destruct (Hr (hw (add_event w (Invoke m)))) as (u & Hc).
  exists b, u. split; [exact Hc|apply H].
Qed.

Lemma wp_invoke_total (m : module) (w : world F) (Q : bool -> world F -> Prop) :
  total (inits m) ->
  (forall (b : bool) (u : uart), Q b (set_hw (add_event w (Invoke m)) u)) ->
  wp (invoke F inits m) w Q.
Proof.
  intros Ht H. unfold invoke. apply wp_bind, wp_emit, wp_on_hw.
  destruct (Ht (hw (add_event w (Invoke m)))) as (b & u & Hc).
  exists b, u. split; [exact Hc|apply H].
Qed.

Lemma wp_capture (SystemTable : EFI_SYSTEM_TABLE F) (ImageHandle : EFI_HANDLE)
    (w : world F) (Q : unit -> world F -> Prop) :
  Q tt (mkWorld (hw w) (fw w) (Some SystemTable) ImageHandle
          (Some (BootServices SystemTable)) (trace w)) ->
  wp (capture F SystemTable ImageHandle) w Q.
Proof.
  intros H. refine (ex_intro _ _ (ex_intro _ _ (conj _ H))).
  apply converges_always. reflexivity.
Qed.

Lemma wp_call_GetMemoryMap (bs : EFI_BOOT_SERVICES F) (vars : map_vars)
    (MemoryMap : option Z) (w : world F)
    (Q : EFI_STATUS * map_vars -> world F -> Prop) :
  gBootServices w = Some bs ->
  (let r := GetMemoryMap bs vars MemoryMap (fw w) in
   let vars' := snd (fst r) in
   Q (to_UINTN (fst (fst r)),
      mkMapVars (MemoryMapSize vars') (to_UINTN (MapKey vars'))
        (DescriptorSize vars') (DescriptorVersion vars'))
     (add_event (set_fw w (snd r))
        (GetMemoryMapCall (MemoryMapSize vars) MemoryMap
           (to_UINTN (fst (fst r))) (to_UINTN (MapKey vars'))))) ->
  wp (call_GetMemoryMap F vars MemoryMap) w Q.
Proof.
  intros Hbs H. refine (ex_intro _ _ (ex_intro _ _ (conj _ H))).
  apply converges_always. intros n. unfold call_GetMemoryMap. rewrite Hbs.
  destruct (GetMemoryMap bs vars MemoryMap (fw w)) as [[st vars'] f'].
  reflexivity.
Qed.

Lemma wp_call_ExitBootServices (bs : EFI_BOOT_SERVICES F) (h : EFI_HANDLE)
    (key : Z) (w : world F) (Q : EFI_STATUS -> world F -> Prop) :
  gBootServices w = Some bs ->
  (let r := ExitBootServices bs h key (fw w) in
   Q (to_UINTN (fst r))
     (add_event (set_fw w (snd r))
        (ExitBootServicesCall h key (to_UINTN (fst r))))) ->
  wp (call_ExitBootServices F h key) w Q.
Proof.
  intros Hbs H. refine (ex_intro _ _ (ex_intro _ _ (conj _ H))).
  apply converges_always. intros n. unfold call_ExitBootServices. rewrite Hbs.
  destruct (ExitBootServices bs h key (fw w)) as [st f'].
  reflexivity.
Qed.

End KernelRules.

Ltac wp_world :=
  cbv beta zeta;
  cbn [hw fw gSystemTable gImageHandle gBootServices trace
       set_hw set_fw add_event fst snd MapKey negb].

Ltac wp_step :=
  lazymatch goal with
  | |- wp (bind _ _) _ _ => apply wp_bind
  | |- wp (ret _) _ _ => apply wp_ret
  | |- wp (puts _ _ _) _ _ => apply wp_puts; [assumption|intros ?u]
  | |- wp (capture _ _ _) _ _ => apply wp_capture
  | |- wp (invoke _ _ _) _ _ =>
      first [ eapply wp_invoke_reports; [eassumption|intros ?u]
            | apply wp_invoke_total; [solve [auto]|intros ?ok ?u] ]
  | |- wp (call_GetMemoryMap _ _ _) _ _ =>
      eapply wp_call_GetMemoryMap; [reflexivity|]
  | |- wp (call_ExitBootServices _ _ _) _ _ =>
      eapply wp_call_ExitBootServices; [reflexivity|]
  | |- wp (if negb ?b then _ else _) _ _ => is_var b; destruct b
  | |- wp (if ?b then _ else _) _ _ => is_var b; destruct b
  end; wp_world.

(** The trace at the end is the trace at the start and what was added. *)
Ltac trace_suffix := rewrite <- ?app_assoc; reflexivity.

(** ** The paths of [main] *)

Section Paths.

Variable uart_read : nat -> byte.
Variable F : Type.
Variable inits : module -> run uart bool.
Hypothesis fair : eventually_empty uart_read.

Variable SystemTable : EFI_SYSTEM_TABLE F.
Variable ImageHandle : EFI_HANDLE.
Variable w : world F.

Let bs := BootServices SystemTable.
Let boot := boot_sequence uart_read F inits SystemTable ImageHandle.
Let entry_routine := main uart_read F inits SystemTable ImageHandle.

(** A [return status] of the boot sequence is a return of [main]. *)
Lemma main_returns (Q : EFI_STATUS -> world F -> Prop) :
  wp boot w (fun r w' => exists status, r = Abort status /\ Q status w') ->
  wp entry_routine w Q.
Proof.
  intros H. unfold entry_routine, main. apply wp_bind.
  apply (wp_weaken _ _ _ _ H). intros r w' (status & -> & HQ).
  apply wp_ret. exact HQ.
Qed.

(** Once the boot sequence has reached the loop, [main] returns with no
    bound. *)
Lemma main_never_returns :
  wp boot w (fun r _ => r = Proceed) ->
  forall n : nat, entry_routine n w = None.
Proof.
  intros (r & w' & Hc & ->) n. unfold entry_routine, main, bind.
  fold boot. destruct (converges_at _ _ _ _ n Hc) as [E|E]; rewrite E.
  - reflexivity.
  - apply kernel_loop_never_returns.
Qed.

Lemma memory_failure_path :
  reports (inits Memory) false ->
  wp boot w
    (fun r w' =>
       r = Abort EFI_OUT_OF_RESOURCES /\
       trace w' = trace w ++ preamble ++ [Invoke Memory; Puts msg_memory_failed]).
Proof.
  intros Hm. unfold boot, boot_sequence.
  repeat wp_step. split; [reflexivity|trace_suffix].
Qed.

Lemma hot_services_failure_path (d f g : bool) :
  reports (inits Memory) true -> reports (inits Devices) d ->
  reports (inits FileSystem) f -> reports (inits Graphics) g ->
  reports (inits HotServices) false ->
  wp boot w
    (fun r w' =>
       r = Abort EFI_DEVICE_ERROR /\
       trace w' = trace w ++ preamble ++ modules_trace d f g ++
                  [Puts msg_hot_services_failed]).
Proof.
  intros Hm Hd Hf Hg Hh. unfold boot, boot_sequence.
  repeat wp_step; (split; [reflexivity|trace_suffix]).
Qed.

Lemma probe_failure_path (d f g : bool) :
  modules_up inits d f g ->
  probe_status bs (fw w) <> EFI_BUFFER_TOO_SMALL ->
  wp boot w
    (fun r w' =>
       r = Abort (probe_status bs (fw w)) /\
       trace w' = trace w ++ preamble ++ modules_trace d f g ++
                  [Puts msg_exiting;
                   GetMemoryMapCall 0 None (probe_status bs (fw w))
                     (probe_key bs (fw w));
                   Puts msg_no_map_size]).
Proof.
  intros (Hm & Hd & Hf & Hg & Hh) Hp. apply Z.eqb_neq in Hp.
  unfold probe_status, probe_key, probe, bs in *.
  unfold boot, boot_sequence.
  repeat wp_step; rewrite Hp; wp_world; repeat wp_step;
    (split; [reflexivity|trace_suffix]).
Qed.

Lemma exit_failure_path (d f g : bool) :
  modules_up inits d f g ->
  probe_status bs (fw w) = EFI_BUFFER_TOO_SMALL ->
  EFI_ERROR (exit_status bs ImageHandle (fw w)) = true ->
  wp boot w
    (fun r w' =>
       r = Abort (exit_status bs ImageHandle (fw w)) /\
       trace w' = trace w ++ preamble ++ modules_trace d f g ++
                  [Puts msg_exiting;
                   GetMemoryMapCall 0 None EFI_BUFFER_TOO_SMALL
                     (probe_key bs (fw w));
                   ExitBootServicesCall ImageHandle (probe_key bs (fw w))
                     (exit_status bs ImageHandle (fw w));
                   Puts msg_exit_failed]).
Proof.
  intros (Hm & Hd & Hf & Hg & Hh) Hp He.
  unfold exit_status, probe_status, probe_key, probe, bs in *.
  unfold boot, boot_sequence.
  repeat wp_step; rewrite Hp, Z.eqb_refl; wp_world; repeat wp_step; rewrite He;
    wp_world;
    repeat wp_step;
    (split; [reflexivity|trace_suffix]).
Qed.

Lemma proceed_path (d f g : bool) :
  modules_up inits d f g ->
  probe_status bs (fw w) = EFI_BUFFER_TOO_SMALL ->
  EFI_ERROR (exit_status bs ImageHandle (fw w)) = false ->
  wp boot w
    (fun r w' =>
       r = Proceed /\
       trace w' = trace w ++ preamble ++ modules_trace d f g ++
                  [Puts msg_exiting;
                   GetMemoryMapCall 0 None EFI_BUFFER_TOO_SMALL
                     (probe_key bs (fw w));
                   ExitBootServicesCall ImageHandle (probe_key bs (fw w))
                     (exit_status bs ImageHandle (fw w))] ++
                  completion).
Proof.
  intros (Hm & Hd & Hf & Hg & Hh) Hp He.
  unfold exit_status, probe_status, probe_key, probe, bs in *.
  unfold boot, boot_sequence.
  repeat wp_step; rewrite Hp, Z.eqb_refl; wp_world; repeat wp_step; rewrite He;
    wp_world;
    repeat wp_step;
    (split; [reflexivity|trace_suffix]).
Qed.

End Paths.

(** ** All the outcomes of [main] *)

Section Outcomes.

Variable uart_read : nat -> byte.
Variable F : Type.
Variable inits : module -> run uart bool.
Hypothesis fair : eventually_empty uart_read.
Hypothesis inits_total : forall m : module, total (inits m).

Variable SystemTable : EFI_SYSTEM_TABLE F.
Variable ImageHandle : EFI_HANDLE.
Variable w : world F.

Let bs := BootServices SystemTable.

Lemma boot_outcomes :
  wp (boot_sequence uart_read F inits SystemTable ImageHandle) w
    (fun r _ => boot_outcome bs ImageHandle (fw w) r).
Proof.
  unfold boot_outcome, exit_status, probe_status, probe_key, probe, bs.
  unfold boot_sequence.
  repeat wp_step; try (simpl; solve [auto]);
    match goal with
    | |- wp (if negb (?a =? ?b) then _ else _) _ _ =>
        destruct (Z.eqb_spec a b) as [E|E]; wp_world
    end;
    repeat wp_step; try (simpl; solve [auto 8]);
    match goal with
    | |- wp (if EFI_ERROR ?s then _ else _) _ _ =>
        destruct (EFI_ERROR s) eqn:E'; wp_world
    end;
    repeat wp_step; simpl; auto 8.
Qed.

(** With the fatal modules up and a handshake that passes, the boot
    sequence reaches the loop, whatever the recoverable modules return. *)
Lemma boot_proceeds :
  reports (inits Memory) true ->
  reports (inits HotServices) true ->
  probe_status bs (fw w) = EFI_BUFFER_TOO_SMALL ->
  EFI_ERROR (exit_status bs ImageHandle (fw w)) = false ->
  wp (boot_sequence uart_read F inits SystemTable ImageHandle) w
    (fun r _ => r = Proceed).
Proof.
  intros Hm Hh Hp He.
  unfold exit_status, probe_status, probe_key, probe, bs in *.
  unfold boot_sequence.
  repeat wp_step; rewrite Hp, Z.eqb_refl; wp_world; repeat wp_step;
    rewrite He; wp_world; repeat wp_step; reflexivity.
Qed.

End Outcomes.

(** ** Static initialization *)

Lemma call_entries_spec {F : Type} (called : nat -> event) (entries : list entry) :
  entries_total entries ->
  forall (i : nat) (w : world F),
    wp (call_entries called entries i) w
      (fun _ w' => trace w' = trace w ++ map called (nonnull_from entries i)).
Proof.
  induction 1 as [|e entries He _ IH]; intros i w; simpl.
  - apply wp_ret. rewrite app_nil_r. reflexivity.
  - apply wp_bind. destruct e as [f|].
    + apply wp_bind, wp_emit, wp_on_hw.
      destruct (He (hw (add_event w (called i)))) as ([] & u & Hc).
      exists tt, u. split; [exact Hc|].
      eapply wp_weaken; [apply IH|].
      intros [] w' Ht. cbv beta in Ht. rewrite Ht. simpl.
      rewrite <- app_assoc. reflexivity.
    + apply wp_ret. apply IH.
Qed.

Lemma nonnull_from_lower (entries : list entry) :
  forall i j : nat, In j (nonnull_from entries i) -> (i <= j)%nat.
Proof.
  induction entries as [|[f|] entries IH]; intros i j; simpl.
  - intros [].
  - intros [<-|H]; [lia|]. apply IH in H. lia.
  - intros H. apply IH in H. lia.
Qed.

Lemma nonnull_from_ascending (entries : list entry) :
  forall i : nat, StronglySorted lt (nonnull_from entries i).
Proof.
  induction entries as [|[f|] entries IH]; intros i; simpl.
  - constructor.
  - constructor; [apply IH|].
    apply Forall_forall. intros j Hj. apply nonnull_from_lower in Hj. lia.
  - apply IH.
Qed.

Lemma nonnull_from_complete (entries : list entry) :
  forall i j : nat,
    In j (nonnull_from entries i) <->
    exists (k : nat) (f : run uart unit),
      j = (i + k)%nat /\ nth_error entries k = Some (Some f).
Proof.
  induction entries as [|e entries IH]; intros i j.
  - simpl. split; [intros []|]. intros ([|k] & f & _ & H); discriminate.
  - assert (Hrest : In j (nonnull_from entries (S i)) <->
                    exists (k : nat) (f : run uart unit),
                      j = (i + S k)%nat /\ nth_error entries k = Some (Some f)).
    { rewrite IH. split; intros (k & f & Hj & Hk); exists k, f; split; auto; lia. }
    destruct e as [f0|]; simpl; rewrite Hrest; split.
    + intros [<-|(k & f & Hj & Hk)].
      * exists O, f0. split; [lia|reflexivity].
      * exists (S k), f. auto.
    + intros ([|k] & f & Hj & Hk).
      * left. lia.
      * right. exists k, f. auto.
    + intros (k & f & Hj & Hk). exists (S k), f. auto.
    + intros ([|k] & f & Hj & Hk); [discriminate|]. exists k, f. auto.
Qed.

(** ** The test doubles *)

Lemma always_ready_fair : eventually_empty always_ready.
Proof. intros k. exists k. split; [lia|reflexivity]. Qed.

Lemma every_other_fair : eventually_empty every_other.
Proof.
  intros k. unfold every_other. destruct (Nat.even k) eqn:E.
  - exists (S k). split; [lia|].
    rewrite Nat.even_succ. unfold Nat.odd. rewrite E. reflexivity.
  - exists k. split; [lia|]. rewrite E. reflexivity.
Qed.

Lemma inits_returning_reports (r : module -> bool) (m : module) :
  reports (inits_returning r m) (r m).
Proof. intros u. exists u. apply converges_ret. Qed.

Lemma two_lines_report (uart_read : nat -> byte) (s1 s2 : string) :
  eventually_empty uart_read ->
  reports (debug_puts uart_read (c_str s1);;
           debug_puts uart_read (c_str s2);; ret true) true.
Proof.
  intros fair u.
  destruct (debug_puts_spec uart_read fair _ (c_str_terminated s1) u)
    as (u1 & l1 & H1 & _).
  destruct (debug_puts_spec uart_read fair _ (c_str_terminated s2) u1)
    as (u2 & l2 & H2 & _).
  exists u2. eapply converges_bind; [exact H1|].
  eapply converges_bind; [exact H2|apply converges_ret].
Qed.

(** The initializers of the source return [true], all of them. *)
Lemma source_inits_report (uart_read : nat -> byte) (m : module) :
  eventually_empty uart_read -> reports (source_inits uart_read m) true.
Proof. intros fair. destruct m; apply two_lines_report; exact fair. Qed.

Lemma reports_total {A : Type} (m : run uart A) (a : A) : reports m a -> total m.
Proof. intros H u. destruct (H u) as (u' & Hc). exists a, u'. exact Hc. Qed.

(** ** The machine along the trace of [main] *)

Lemma wp_conj {S A : Type} (m : run S A) (s : S) (Q1 Q2 : A -> S -> Prop) :
  wp m s Q1 -> wp m s Q2 -> wp m s (fun a s' => Q1 a s' /\ Q2 a s').
Proof.
  intros (a1 & s1 & Hc1 & H1) (a2 & s2 & Hc2 & H2).
  destruct (converges_unique _ _ _ _ _ _ Hc1 Hc2) as [<- <-].
  exists a1, s1. split; [exact Hc1|split; assumption].
Qed.

Lemma machine_follows_split (uart_read : nat -> byte)
    (inits : module -> run uart bool) (tr1 tr2 : list event) :
  forall u u2 : uart,
    machine_follows uart_read inits (tr1 ++ tr2) u u2 ->
    exists u1 : uart,
      machine_follows uart_read inits tr1 u u1 /\
      machine_follows uart_read inits tr2 u1 u2.
Proof.
  induction tr1 as [|e tr1 IH]; intros u u2 H.
  - exists u. split; [constructor|exact H].
  - cbn [app] in H. inversion H; subst;
      match goal with
      | Hrest : machine_follows _ _ (tr1 ++ tr2) _ _ |- _ =>
          destruct (IH _ _ Hrest) as (ux & Ha & Hb)
      end;
      exists ux; (split; [|exact Hb]).
    + eapply follows_puts; eassumption.
    + eapply follows_invoke; eassumption.
    + eapply follows_firmware; eassumption.
Qed.

(** A run of [debug_puts] on the string of a call of [main] adds the bytes
    of the string to the bytes written, a carriage return after every line
    feed, and no other byte. *)
Lemma puts_run_tx (uart_read : nat -> byte) (s : string) (u u1 : uart) :
  eventually_empty uart_read ->
  converges (debug_puts uart_read (c_str s)) u tt u1 ->
  tx u1 = tx u ++ flat_map crlf (c_prefix (c_str s)).
Proof.
  intros fair Hc.
  destruct (debug_puts_spec uart_read fair (c_str s) (c_str_terminated s) u)
    as (u' & l & Hc' & Hb & Hl).
  destruct (converges_unique _ _ _ _ _ _ Hc Hc') as [_ ->].
  unfold tx. rewrite Hb, tx_of_app, (bytes_sent_tx _ _ Hl). reflexivity.
Qed.

(** A trace that ends with a [debug_puts]: the bytes written last are
    those of its string. *)
Lemma machine_follows_last_puts (uart_read : nat -> byte)
    (inits : module -> run uart bool) (tr : list event) (s : string)
    (u u2 : uart) :
  eventually_empty uart_read ->
  machine_follows uart_read inits (tr ++ [Puts s]) u u2 ->
  exists u1 : uart,
    machine_follows uart_read inits tr u u1 /\
    converges (debug_puts uart_read (c_str s)) u1 tt u2 /\
    tx u2 = tx u1 ++ flat_map crlf (c_prefix (c_str s)).
Proof.
  intros fair H.
  destruct (machine_follows_split uart_read inits tr [Puts s] u u2 H)
    as (u1 & Ha & Hb).
  exists u1. split; [exact Ha|].
  inversion Hb; subst.
  - match goal with
    | Hnil : machine_follows _ _ [] _ _ |- _ => inversion Hnil; subst
    end.
    split; [assumption|]. apply (puts_run_tx uart_read); assumption.
  - discriminate.
Qed.

(** With initializers that write nothing, the bytes written are those of
    the strings of the trace. *)
Lemma machine_follows_silent (uart_read : nat -> byte)
    (inits : module -> run uart bool) :
  eventually_empty uart_read ->
  (forall (m : module) (u u' : uart) (b : bool),
     converges (inits m) u b u' -> tx u' = tx u) ->
  forall (tr : list event) (u u2 : uart),
    machine_follows uart_read inits tr u u2 ->
    tx u2 = tx u ++ flat_map crlf (flat_map puts_text tr).
Proof.
  intros fair Hsilent tr u u2 H.
  induction H as [u|s tr u u1 u2 Hc _ IH|m b tr u u1 u2 Hc _ IH|e tr u u2 He _ IH].
  - rewrite app_nil_r. reflexivity.
  - rewrite IH, (puts_run_tx _ _ _ _ fair Hc). cbn [flat_map puts_text].
    rewrite flat_map_app, <- app_assoc. reflexivity.
  - rewrite IH, (Hsilent _ _ _ _ Hc). reflexivity.
  - rewrite IH. destruct e; try discriminate; reflexivity.
Qed.

Lemma inits_returning_silent (r : module -> bool) (m : module) (u u' : uart)
    (b : bool) :
  converges (inits_returning r m) u b u' -> tx u' = tx u.
Proof.
  intros H.
  destruct (converges_unique _ _ _ _ _ _ H (converges_ret (r m) u)) as [_ ->].
  reflexivity.
Qed.

Section RunRules.

Variable uart_read : nat -> byte.
Variable F : Type.
Variable inits : module -> run uart bool.
Hypothesis fair : eventually_empty uart_read.

Lemma wp_puts_run (s : string) (w : world F) (Q : unit -> world F -> Prop) :
  (forall u : uart,
     converges (debug_puts uart_read (c_str s)) (hw w) tt u ->
     Q tt (set_hw (add_event w (Puts s)) u)) ->
  wp (puts uart_read F s) w Q.
Proof.
  intros H. unfold puts. apply wp_bind, wp_emit, wp_on_hw.
  destruct (debug_puts_spec uart_read fair (c_str s) (c_str_terminated s)
              (hw (add_event w (Puts s)))) as (u & l & Hc & _).
  exists tt, u. split; [exact Hc|]. apply H. exact Hc.
Qed.

Lemma wp_invoke_run_reports (m : module) (b : bool) (w : world F)
    (Q : bool -> world F -> Prop) :
  reports (inits m) b ->
  (forall u : uart,
     converges (inits m) (hw w) b u ->
     Q b (set_hw (add_event w (Invoke m)) u)) ->
  wp (invoke F inits m) w Q.
Proof.
  intros Hr H. unfold invoke. apply wp_bind, wp_emit, wp_on_hw.
  destruct (Hr (hw (add_event w (Invoke m)))) as (u & Hc).
  exists b, u. split; [exact Hc|apply H; exact Hc].
Qed.

Lemma wp_invoke_run_total (m : module) (w : world F)
    (Q : bool -> world F -> Prop) :
  total (inits m) ->
  (forall (b : bool) (u : uart),
     converges (inits m) (hw w) b u ->
     Q b (set_hw (add_event w (Invoke m)) u)) ->
  wp (invoke F inits m) w Q.
Proof.
  intros Ht H. unfold invoke. apply wp_bind, wp_emit, wp_on_hw.
  destruct (Ht (hw (add_event w (Invoke m)))) as (b & u & Hc).
  exists b, u. split; [exact Hc|apply H; exact Hc].
Qed.

End RunRules.

Ltac run_step :=
  lazymatch goal with
  | |- wp (bind _ _) _ _ => apply wp_bind
  | |- wp (ret _) _ _ => apply wp_ret
  | |- wp (puts _ _ _) _ _ =>
      apply wp_puts_run;
      [assumption
      |let H := fresh "Hput" in
       intros ?u H; cbn [hw set_hw set_fw add_event] in H]
  | |- wp (capture _ _ _) _ _ => apply wp_capture
  | |- wp (invoke _ _ _) _ _ =>
      first
        [ eapply wp_invoke_run_reports;
          [eassumption
          |let H := fresh "Hrun" in
           intros ?u H; cbn [hw set_hw set_fw add_event] in H]
        | apply wp_invoke_run_total;
          [solve [auto]
          |let H := fresh "Hrun" in
           intros ?ok ?u H; cbn [hw set_hw set_fw add_event] in H] ]
  | |- wp (call_GetMemoryMap _ _ _) _ _ =>
      eapply wp_call_GetMemoryMap; [reflexivity|]
  | |- wp (call_ExitBootServices _ _ _) _ _ =>
      eapply wp_call_ExitBootServices; [reflexivity|]
  | |- wp (if negb ?b then _ else _) _ _ => is_var b; destruct b
  | |- wp (if ?b then _ else _) _ _ => is_var b; destruct b
  end; wp_world.

(** The relation [machine_follows] from the facts the steps left. *)
Ltac follows_trace :=
  unfold preamble, modules_trace, completion; cbn [app]; wp_world;
  repeat lazymatch goal with
    | |- machine_follows _ _ [] _ _ => apply follows_nil
    | |- machine_follows _ _ (Puts ?s :: _) ?u _ =>
        lazymatch goal with
        | H : converges (debug_puts _ (c_str s)) u tt ?u1 |- _ =>
            apply (follows_puts _ _ s _ u u1 _ H)
        end
    | |- machine_follows _ _ (Invoke ?m :: _) ?u _ =>
        lazymatch goal with
        | H : converges (_ m) u ?b ?u1 |- _ =>
            apply (follows_invoke _ _ m b _ u u1 _ H)
        end
    | |- machine_follows _ _ (_ :: _) _ _ =>
        apply follows_firmware; [reflexivity|]
    end.

Ltac follows_leaf := eexists; split; [trace_suffix|follows_trace].

Section Runs.

Variable uart_read : nat -> byte.
Variable F : Type.
Variable inits : module -> run uart bool.
Hypothesis fair : eventually_empty uart_read.

Variable SystemTable : EFI_SYSTEM_TABLE F.
Variable ImageHandle : EFI_HANDLE.
Variable w : world F.

Let boot := boot_sequence uart_read F inits SystemTable ImageHandle.

(** The path of a memory-manager failure, on the machine. *)
Lemma memory_failure_run :
  reports (inits Memory) false ->
  wp boot w
    (fun _ w' =>
       machine_follows uart_read inits
         (preamble ++ [Invoke Memory; Puts msg_memory_failed]) (hw w) (hw w')).
Proof.
  intros Hm. unfold boot, boot_sequence.
  repeat run_step. follows_trace.
Qed.

(** Every path, on the machine. *)
Lemma boot_machine_follows :
  (forall m : module, total (inits m)) ->
  wp boot w
    (fun _ w' =>
       exists new : list event,
         trace w' = trace w ++ new /\
         machine_follows uart_read inits new (hw w) (hw w')).
Proof.
  intros Ht. unfold boot, boot_sequence.
  repeat run_step; try solve [follows_leaf];
    match goal with
    | |- wp (if negb (?a =? ?b) then _ else _) _ _ =>
        destruct (a =? b); wp_world
    end;
    repeat run_step; try solve [follows_leaf];
    match goal with
    | |- wp (if EFI_ERROR ?s then _ else _) _ _ =>
        destruct (EFI_ERROR s); wp_world
    end;
    repeat run_step; follows_leaf.
Qed.


End Runs.

(** The two runners, on the machine. *)
Lemma call_entries_runs {F : Type} (called : nat -> event) (entries : list entry) :
  entries_total entries ->
  forall (i : nat) (w : world F),
    wp (call_entries called entries i) w
      (fun _ w' =>
         trace w' = trace w ++ map called (nonnull_from entries i) /\
         entries_run entries (hw w) (hw w') /\
         fw w' = fw w).
Proof.
  induction 1 as [|e entries He _ IH]; intros i w; simpl.
  - apply wp_ret. rewrite app_nil_r. repeat split. constructor.
  - apply wp_bind. destruct e as [f|].
    + apply wp_bind, wp_emit, wp_on_hw.
      destruct (He (hw (add_event w (called i)))) as ([] & u & Hc).
      exists tt, u. split; [exact Hc|].
      eapply wp_weaken; [apply IH|].
      intros [] w' (Ht & Hr & Hf). cbv beta in *.
      split; [rewrite Ht; simpl; rewrite <- app_assoc; reflexivity|].
      split; [eapply run_entry; [exact Hc|exact Hr]|exact Hf].
    + apply wp_ret. eapply wp_weaken; [apply IH|].
      intros [] w' (Ht & Hr & Hf).
      split; [exact Ht|]. split; [apply run_null; exact Hr|exact Hf].
Qed.

(** A diagnostic of a trace the machine follows was written to the
    channel at its place. *)
Lemma machine_follows_puts_written (uart_read : nat -> byte)
    (inits : module -> run uart bool)
    (pre : list event) (s : string) (post : list event) (u u2 : uart) :
  eventually_empty uart_read ->
  machine_follows uart_read inits (pre ++ Puts s :: post) u u2 ->
  exists u1 u1' : uart,
    machine_follows uart_read inits pre u u1 /\
    converges (debug_puts uart_read (c_str s)) u1 tt u1' /\
    tx u1' = tx u1 ++ flat_map crlf (c_prefix (c_str s)) /\
    machine_follows uart_read inits post u1' u2.
Proof.
  intros fair H.
  destruct (machine_follows_split uart_read inits pre (Puts s :: post) u u2 H)
    as (u1 & Ha & Hb).
  inversion Hb; subst.
  - exists u1. eexists. split; [exact Ha|]. split; [eassumption|].
    split; [apply (puts_run_tx uart_read); assumption|assumption].
  - discriminate.
Qed.


Lemma entries_run_some (f : run uart unit) (entries : list entry) (u u2 : uart) :
  entries_run (Some f :: entries) u u2 ->
  exists u1 : uart, converges f u tt u1 /\ entries_run entries u1 u2.
Proof. intros H. inversion H; subst. eauto. Qed.

Lemma entries_run_none (entries : list entry) (u u2 : uart) :
  entries_run (None :: entries) u u2 -> entries_run entries u u2.
Proof. intros H. inversion H; subst. assumption. Qed.

Lemma entries_run_end (u u2 : uart) : entries_run [] u u2 -> u = u2.
Proof. intros H. inversion H; subst. reflexivity. Qed.

(** A byte put by an entry of the examples. *)
Lemma put_byte_run (c : byte) (u u' : uart) :
  converges (debug_putc always_ready c) u tt u' -> tx u' = tx u ++ crlf c.
Proof.
  intros H.
  destruct (debug_putc_spec always_ready always_ready_fair c u)
    as (u1 & l & Hc & Hb & Hl).
  destruct (converges_unique _ _ _ _ _ _ H Hc) as [_ ->].
  unfold tx. rewrite Hb, tx_of_app, (bytes_sent_tx _ _ Hl). reflexivity.
Qed.

(** The sequencer on the trace: the calls of the initializers and the
    warnings, for any results [d], [f], [g] of the recoverable modules. *)
Lemma recoverable_failures_trace
    (uart_read : nat -> byte) (F : Type) (inits : module -> run uart bool)
    (SystemTable : EFI_SYSTEM_TABLE F) (ImageHandle : EFI_HANDLE)
    (w : world F) (d f g hs : bool) :
  eventually_empty uart_read ->
  reports (inits Memory) true ->
  reports (inits Devices) d ->
  reports (inits FileSystem) f ->
  reports (inits Graphics) g ->
  reports (inits HotServices) hs ->
  wp (boot_sequence uart_read F inits SystemTable ImageHandle) w
    (fun _ w' =>
       exists new : list event,
         trace w' = trace w ++ new /\
         invoked new = [Memory; Devices; FileSystem; Graphics; HotServices] /\
         sequencer_events new =
           [Invoke Memory; Invoke Devices] ++
           (if d then [] else [Puts msg_devices_warning]) ++
           [Invoke FileSystem] ++
           (if f then [] else [Puts msg_filesystem_warning]) ++
           [Invoke Graphics] ++
           (if g then [] else [Puts msg_graphics_warning]) ++
           [Invoke HotServices] /\
         warnings new =
           (if d then [] else [msg_devices_warning]) ++
           (if f then [] else [msg_filesystem_warning]) ++
           (if g then [] else [msg_graphics_warning]) /\
         (hs = true ->
          exists (status : EFI_STATUS) (key : Z),
            In (GetMemoryMapCall 0 None status key) new)) /\
  mentions (module_name Devices) msg_devices_warning = true /\
  mentions (module_name FileSystem) msg_filesystem_warning = true /\
  mentions (module_name Graphics) msg_graphics_warning = true.
Proof.
  intros fair Hm Hd Hf Hg Hh.
  split; [|repeat split; reflexivity].
  set (bs := BootServices SystemTable).
  destruct hs.
  - assert (Hup : modules_up inits d f g) by (repeat split; assumption).
    destruct (Z.eq_dec (probe_status bs (fw w)) EFI_BUFFER_TOO_SMALL) as [Hp|Hp];
      [destruct (EFI_ERROR (exit_status bs ImageHandle (fw w))) eqn:He|].
    + eapply wp_weaken;
        [apply (exit_failure_path uart_read F inits fair SystemTable
                  ImageHandle w d f g Hup Hp He)|].
      intros r w' [_ Ht]. eexists. split; [exact Ht|].
      destruct d, f, g; repeat split; try reflexivity;
        intros _; eexists _, _; simpl; auto 20.
    + eapply wp_weaken;
        [apply (proceed_path uart_read F inits fair SystemTable
                  ImageHandle w d f g Hup Hp He)|].
      intros r w' [_ Ht]. eexists. split; [exact Ht|].
      destruct d, f, g; repeat split; try reflexivity;
        intros _; eexists _, _; simpl; auto 20.
    + eapply wp_weaken;
        [apply (probe_failure_path uart_read F inits fair SystemTable
                  ImageHandle w d f g Hup Hp)|].
      intros r w' [_ Ht]. eexists. split; [exact Ht|].
      destruct d, f, g; repeat split; try reflexivity;
        intros _; eexists _, _; simpl; auto 20.
  - eapply wp_weaken;
      [apply (hot_services_failure_path uart_read F inits fair SystemTable
                ImageHandle w d f g Hm Hd Hf Hg Hh)|].
    intros r w' [_ Ht]. eexists. split; [exact Ht|].
    destruct d, f, g; repeat split; try reflexivity; discriminate.
Qed.

(** * The claims *)

(** C1 (the code departs from the claim).  The claim: the exit primitive
    is never called before a snapshot and a map key were obtained from one
    successful memory-map query, and the key passed is that one.  The
    run of [main] below, with the initializers of the source and a
    firmware whose current map key is 7: the only query is the size probe,
    which fails with buffer-too-small and leaves the key variable at 0;
    the exit primitive is called next, with the key 0; it answers
    [EFI_INVALID_PARAMETER], and the boot sequence goes on to the loop. *)
Theorem C1_exit_called_without_snapshot :
  wp (boot_sequence always_ready Z (source_inits always_ready)
        (mkSystemTable (keyed_firmware EFI_INVALID_PARAMETER)) 77)
    (power_on 7)
    (fun r w' =>
       r = Proceed /\
       firmware_calls (trace w') =
         [GetMemoryMapCall 0 None EFI_BUFFER_TOO_SMALL 0;
          ExitBootServicesCall 77 0 EFI_INVALID_PARAMETER] /\
       exits_use_snapshot_key None (trace w') = false).
Proof.
  eapply wp_weaken.
  - apply (proceed_path always_ready Z (source_inits always_ready)
             always_ready_fair _ 77 (power_on 7) true true true).
    + repeat split; apply source_inits_report, always_ready_fair.
    + reflexivity.
    + reflexivity.
  - intros r w' [-> Ht]. rewrite Ht. repeat split; reflexivity.
Qed.




(** C3.  When the memory-manager initializer reports failure, [main]
    returns [EFI_OUT_OF_RESOURCES]; the memory manager is the only
    initializer that was invoked; the one error diagnostic is the message
    of the memory manager, which names it; the firmware was not called.
    On the machine: the banner was written, the initializer of the memory
    manager ran, and the last bytes written to the channel are those of
    that message, right after the initializer returned. *)
Theorem C3_memory_failure_aborts
    (uart_read : nat -> byte) (F : Type) (inits : module -> run uart bool)
    (SystemTable : EFI_SYSTEM_TABLE F) (ImageHandle : EFI_HANDLE) (w : world F) :
  eventually_empty uart_read ->
  reports (inits Memory) false ->
  wp (main uart_read F inits SystemTable ImageHandle) w
    (fun status w' =>
       status = EFI_OUT_OF_RESOURCES /\
       exists new : list event,
         trace w' = trace w ++ new /\
         invoked new = [Memory] /\
         errors new = [msg_memory_failed] /\
         mentions (module_name Memory) msg_memory_failed = true /\
         firstn 2 (rev new) = [Puts msg_memory_failed; Invoke Memory] /\
         firmware_calls new = [] /\
         machine_follows uart_read inits new (hw w) (hw w') /\
         exists u1 : uart,
           machine_follows uart_read inits (preamble ++ [Invoke Memory])
             (hw w) u1 /\
           converges (debug_puts uart_read (c_str msg_memory_failed))
             u1 tt (hw w') /\
           tx (hw w') =
             tx u1 ++ flat_map crlf (list_byte_of_string msg_memory_failed)).
Proof.
  intros fair Hm. apply main_returns.
  eapply wp_weaken.
  - apply (wp_conj _ _ _ _
             (memory_failure_path uart_read F inits fair SystemTable
                ImageHandle w Hm)
             (memory_failure_run uart_read F inits fair SystemTable
                ImageHandle w Hm)).
  - intros r w' [[-> Ht] Hrun]. eexists. split; [reflexivity|].
    split; [reflexivity|]. eexists. split; [exact Ht|].
    split; [reflexivity|]. split; [reflexivity|]. split; [reflexivity|].
    split; [reflexivity|]. split; [reflexivity|]. split; [exact Hrun|].
    apply (machine_follows_last_puts uart_read inits
             (preamble ++ [Invoke Memory]) msg_memory_failed _ _ fair).
    exact Hrun.
Qed.

Lemma C3_memory_failure_witness :
  reports (inits_returning (all_but [Memory]) Memory) false /\
  wp (main every_other unit (inits_returning (all_but [Memory]))
        (mkSystemTable (fixed_firmware EFI_BUFFER_TOO_SMALL EFI_SUCCESS)) 77)
    (power_on tt)
    (fun status w' =>
       status = EFI_OUT_OF_RESOURCES /\
       invoked (trace w') = [Memory] /\
       tx (hw w') = flat_map crlf (flat_map puts_text (trace w'))).
Proof.
  split; [apply (inits_returning_reports (all_but [Memory]) Memory)|].
  eapply wp_weaken.
  - apply (C3_memory_failure_aborts every_other unit
             (inits_returning (all_but [Memory]))
             (mkSystemTable (fixed_firmware EFI_BUFFER_TOO_SMALL EFI_SUCCESS))
             77 (power_on tt) every_other_fair).
    apply (inits_returning_reports (all_but [Memory]) Memory).
  - intros status w' (Hs & new & Ht & Hi & _ & _ & _ & _ & Hrun & _).
    split; [exact Hs|]. rewrite Ht. simpl. split; [exact Hi|].
    apply (machine_follows_silent every_other _ every_other_fair
             (inits_returning_silent (all_but [Memory])) new _ _ Hrun).
Defined.

(** C4.  With the memory manager up, whatever the initializers of the
    devices, the file system and the graphics return ([d], [f], [g]): the
    five initializers are invoked in order; a module that returned [false]
    gets its warning, which names it, right after its initializer and
    before the next one is invoked; there is no other warning; and when
    the hot services are up the sequence goes on to the size probe of the
    exit handshake.  On the machine: every initializer of the trace ran,
    from the state the machine was in, and every diagnostic of the trace,
    the warnings among them, was written to the channel at its place,
    after what precedes it in the trace and before what follows.
    With [d = false], [f = true], [g = false] that is two warnings, for
    the devices and the graphics. *)
Theorem C4_recoverable_failures_continue
    (uart_read : nat -> byte) (F : Type) (inits : module -> run uart bool)
    (SystemTable : EFI_SYSTEM_TABLE F) (ImageHandle : EFI_HANDLE)
    (w : world F) (d f g hs : bool) :
  eventually_empty uart_read ->
  reports (inits Memory) true ->
  reports (inits Devices) d ->
  reports (inits FileSystem) f ->
  reports (inits Graphics) g ->
  reports (inits HotServices) hs ->
  wp (boot_sequence uart_read F inits SystemTable ImageHandle) w
    (fun _ w' =>
       exists new : list event,
         trace w' = trace w ++ new /\
         machine_follows uart_read inits new (hw w) (hw w') /\
         (forall (pre : list event) (s : string) (post : list event),
            new = pre ++ Puts s :: post ->
            exists u1 u2 : uart,
              machine_follows uart_read inits pre (hw w) u1 /\
              converges (debug_puts uart_read (c_str s)) u1 tt u2 /\
              tx u2 = tx u1 ++ flat_map crlf (c_prefix (c_str s)) /\
              machine_follows uart_read inits post u2 (hw w')) /\
         invoked new = [Memory; Devices; FileSystem; Graphics; HotServices] /\
         sequencer_events new =
           [Invoke Memory; Invoke Devices] ++
           (if d then [] else [Puts msg_devices_warning]) ++
           [Invoke FileSystem] ++
           (if f then [] else [Puts msg_filesystem_warning]) ++
           [Invoke Graphics] ++
           (if g then [] else [Puts msg_graphics_warning]) ++
           [Invoke HotServices] /\
         warnings new =
           (if d then [] else [msg_devices_warning]) ++
           (if f then [] else [msg_filesystem_warning]) ++
           (if g then [] else [msg_graphics_warning]) /\
         (hs = true ->
          exists (status : EFI_STATUS) (key : Z),
            In (GetMemoryMapCall 0 None status key) new)) /\
  mentions (module_name Devices) msg_devices_warning = true /\
  mentions (module_name FileSystem) msg_filesystem_warning = true /\
  mentions (module_name Graphics) msg_graphics_warning = true.
Proof.
  intros fair Hm Hd Hf Hg Hh.
  destruct (recoverable_failures_trace uart_read F inits SystemTable
              ImageHandle w d f g hs fair Hm Hd Hf Hg Hh) as [Htrace Hnames].
  split; [|exact Hnames].
  assert (Htot : forall m : module, total (inits m)).
  { intros []; eapply reports_total; eassumption. }
  eapply wp_weaken.
  - apply (wp_conj _ _ _ _ Htrace
             (boot_machine_follows uart_read F inits fair SystemTable
                ImageHandle w Htot)).
  - intros r w' [(new & Hnew & Hi & Hs & Hw & Hq) (new2 & Hnew2 & Hrun)].
    rewrite Hnew in Hnew2. apply app_inv_head in Hnew2. subst new2.
    exists new. split; [exact Hnew|]. split; [exact Hrun|]. split.
    { intros pre s post ->.
      apply machine_follows_puts_written; [exact fair|exact Hrun]. }
    split; [exact Hi|]. split; [exact Hs|]. split; [exact Hw|exact Hq].
Qed.

Lemma C4_two_warnings_witness :
  reports (inits_returning (all_but [Devices; Graphics]) Devices) false /\
  reports (inits_returning (all_but [Devices; Graphics]) Graphics) false /\
  wp (boot_sequence always_ready unit
        (inits_returning (all_but [Devices; Graphics]))
        (mkSystemTable (fixed_firmware EFI_BUFFER_TOO_SMALL EFI_SUCCESS)) 77)
    (power_on tt)
    (fun _ w' =>
       invoked (trace w') = [Memory; Devices; FileSystem; Graphics; HotServices] /\
       warnings (trace w') = [msg_devices_warning; msg_graphics_warning] /\
       tx (hw w') = flat_map crlf (flat_map puts_text (trace w')) /\
       exists (status : EFI_STATUS) (key : Z),
         In (GetMemoryMapCall 0 None status key) (trace w')).
Proof.
  split; [apply (inits_returning_reports (all_but [Devices; Graphics]) Devices)|].
  split; [apply (inits_returning_reports (all_but [Devices; Graphics]) Graphics)|].
  eapply wp_weaken.
  - apply (C4_recoverable_failures_continue always_ready unit
             (inits_returning (all_but [Devices; Graphics]))
             (mkSystemTable (fixed_firmware EFI_BUFFER_TOO_SMALL EFI_SUCCESS))
             77 (power_on tt) false true false true always_ready_fair).
    + apply (inits_returning_reports (all_but [Devices; Graphics]) Memory).
    + apply (inits_returning_reports (all_but [Devices; Graphics]) Devices).
    + apply (inits_returning_reports (all_but [Devices; Graphics]) FileSystem).
    + apply (inits_returning_reports (all_but [Devices; Graphics]) Graphics).
    + apply (inits_returning_reports (all_but [Devices; Graphics]) HotServices).
  - intros r w' (new & Ht & Hrun & _ & Hi & _ & Hw & Hq).
    rewrite Ht. simpl. split; [exact Hi|]. split; [exact Hw|]. split.
    + apply (machine_follows_silent always_ready _ always_ready_fair
               (inits_returning_silent (all_but [Devices; Graphics]))
               new _ _ Hrun).
    + apply Hq. reflexivity.
Defined.

(** C5.  With the memory manager up, when the hot-services initializer
    reports failure [main] returns [EFI_DEVICE_ERROR] (so the loop, which
    never returns, is not entered); the one error diagnostic is the
    message of the hot services, which names them; the firmware was not
    called: neither the memory-map query nor the exit primitive.  On the
    machine: the five initializers ran, and the last bytes written to the
    channel are those of that message, right after the initializer of the
    hot services returned. *)
Theorem C5_hot_services_failure_aborts
    (uart_read : nat -> byte) (F : Type) (inits : module -> run uart bool)
    (SystemTable : EFI_SYSTEM_TABLE F) (ImageHandle : EFI_HANDLE)
    (w : world F) (d f g : bool) :
  eventually_empty uart_read ->
  reports (inits Memory) true ->
  reports (inits Devices) d ->
  reports (inits FileSystem) f ->
  reports (inits Graphics) g ->
  reports (inits HotServices) false ->
  wp (main uart_read F inits SystemTable ImageHandle) w
    (fun status w' =>
       status = EFI_DEVICE_ERROR /\
       exists new : list event,
         trace w' = trace w ++ new /\
         errors new = [msg_hot_services_failed] /\
         mentions (module_name HotServices) msg_hot_services_failed = true /\
         firstn 2 (rev new) = [Puts msg_hot_services_failed; Invoke HotServices] /\
         firmware_calls new = [] /\
         machine_follows uart_read inits new (hw w) (hw w') /\
         exists u1 : uart,
           machine_follows uart_read inits (preamble ++ modules_trace d f g)
             (hw w) u1 /\
           converges (debug_puts uart_read (c_str msg_hot_services_failed))
             u1 tt (hw w') /\
           tx (hw w') =
             tx u1 ++ flat_map crlf (list_byte_of_string msg_hot_services_failed)).
Proof.
  intros fair Hm Hd Hf Hg Hh. apply main_returns.
  assert (Htot : forall m : module, total (inits m)).
  { intros []; eapply reports_total; eassumption. }
  eapply wp_weaken.
  - apply (wp_conj _ _ _ _
             (hot_services_failure_path uart_read F inits fair SystemTable
                ImageHandle w d f g Hm Hd Hf Hg Hh)
             (boot_machine_follows uart_read F inits fair SystemTable
                ImageHandle w Htot)).
  - intros r w' [[-> Ht] (new & Hnew & Hrun)].
    rewrite Ht in Hnew. apply app_inv_head in Hnew. subst new.
    eexists. split; [reflexivity|].
    split; [reflexivity|]. eexists. split; [exact Ht|].
    split; [destruct d, f, g; reflexivity|]. split; [reflexivity|].
    split; [destruct d, f, g; reflexivity|].
    split; [destruct d, f, g; reflexivity|]. split; [exact Hrun|].
    apply (machine_follows_last_puts uart_read inits
             (preamble ++ modules_trace d f g) msg_hot_services_failed _ _ fair).
    rewrite <- app_assoc. exact Hrun.
Qed.

Lemma C5_hot_services_failure_witness :
  reports (inits_returning (all_but [HotServices]) HotServices) false /\
  wp (main always_ready unit (inits_returning (all_but [HotServices]))
        (mkSystemTable (fixed_firmware EFI_BUFFER_TOO_SMALL EFI_SUCCESS)) 77)
    (power_on tt)
    (fun status w' =>
       status = EFI_DEVICE_ERROR /\
       firmware_calls (trace w') = [] /\
       tx (hw w') = flat_map crlf (flat_map puts_text (trace w'))).
Proof.
  split; [apply (inits_returning_reports (all_but [HotServices]) HotServices)|].
  eapply wp_weaken.
  - apply (C5_hot_services_failure_aborts always_ready unit
             (inits_returning (all_but [HotServices]))
             (mkSystemTable (fixed_firmware EFI_BUFFER_TOO_SMALL EFI_SUCCESS))
             77 (power_on tt) true true true always_ready_fair).
    + apply (inits_returning_reports (all_but [HotServices]) Memory).
    + apply (inits_returning_reports (all_but [HotServices]) Devices).
    + apply (inits_returning_reports (all_but [HotServices]) FileSystem).
    + apply (inits_returning_reports (all_but [HotServices]) Graphics).
    + apply (inits_returning_reports (all_but [HotServices]) HotServices).
  - intros status w' (Hs & new & Ht & _ & _ & _ & Hc & Hrun & _).
    split; [exact Hs|]. rewrite Ht. simpl. split; [exact Hc|].
    apply (machine_follows_silent always_ready _ always_ready_fair
             (inits_returning_silent (all_but [HotServices])) new _ _ Hrun).
Defined.

(** C6, as the code has it.  When the size probe answers anything but
    buffer-too-small, success included, [main] emits its error diagnostic
    and returns the status the probe answered, unchanged; the probe is
    the only call of the firmware: no second query and no exit call. *)
Theorem C6_probe_failure_returns_probe_status
    (uart_read : nat -> byte) (F : Type) (inits : module -> run uart bool)
    (SystemTable : EFI_SYSTEM_TABLE F) (ImageHandle : EFI_HANDLE)
    (w : world F) (d f g : bool) :
  let bs := BootServices SystemTable in
  eventually_empty uart_read ->
  reports (inits Memory) true ->
  reports (inits Devices) d ->
  reports (inits FileSystem) f ->
  reports (inits Graphics) g ->
  reports (inits HotServices) true ->
  probe_status bs (fw w) <> EFI_BUFFER_TOO_SMALL ->
  wp (main uart_read F inits SystemTable ImageHandle) w
    (fun status w' =>
       status = probe_status bs (fw w) /\
       exists new : list event,
         trace w' = trace w ++ new /\
         firmware_calls new =
           [GetMemoryMapCall 0 None status (probe_key bs (fw w))] /\
         errors new = [msg_no_map_size]).
Proof.
  intros bs fair Hm Hd Hf Hg Hh Hp.
  apply main_returns.
  eapply wp_weaken.
  - apply (probe_failure_path uart_read F inits fair SystemTable ImageHandle w d f g);
      [repeat split; assumption|exact Hp].
  - intros r w' [-> Ht]. eexists. split; [reflexivity|].
    split; [reflexivity|]. eexists. split; [exact Ht|].
    destruct d, f, g; split; reflexivity.
Qed.

Lemma C6_probe_failure_witness :
  probe_status (fixed_firmware EFI_NOT_FOUND EFI_SUCCESS) tt <> EFI_BUFFER_TOO_SMALL /\
  wp (main always_ready unit (source_inits always_ready)
        (mkSystemTable (fixed_firmware EFI_NOT_FOUND EFI_SUCCESS)) 77)
    (power_on tt)
    (fun status w' =>
       status = EFI_NOT_FOUND /\
       firmware_calls (trace w') = [GetMemoryMapCall 0 None EFI_NOT_FOUND 7]).
Proof.
  split; [discriminate|].
  eapply wp_weaken.
  - apply (C6_probe_failure_returns_probe_status always_ready unit
             (source_inits always_ready)
             (mkSystemTable (fixed_firmware EFI_NOT_FOUND EFI_SUCCESS)) 77
             (power_on tt) true true true);
      try (apply source_inits_report); try (apply always_ready_fair);
      discriminate.
  - intros status w' (Hs & new & Ht & Hc & _).
    split; [rewrite Hs; reflexivity|].
    rewrite Ht. simpl. rewrite Hc, Hs. reflexivity.
Defined.

(** C6 as stated fails: when the size probe answers success, [main]
    returns [EFI_SUCCESS], not [EFI_DEVICE_ERROR]. *)
Lemma C6_probe_success_counterexample :
  wp (main always_ready unit (source_inits always_ready)
        (mkSystemTable (fixed_firmware EFI_SUCCESS EFI_SUCCESS)) 77)
    (power_on tt)
    (fun status _ => status = EFI_SUCCESS /\ status <> EFI_DEVICE_ERROR).
Proof.
  apply main_returns.
  eapply wp_weaken.
  - apply (probe_failure_path always_ready unit (source_inits always_ready)
             always_ready_fair _ 77 (power_on tt) true true true).
    + repeat split; apply source_inits_report, always_ready_fair.
    + discriminate.
  - intros r w' [-> _]. eexists. split; [reflexivity|].
    split; [reflexivity|discriminate].
Qed.

(** C7, as the code has it.  Every run of [main] either returns or never
    does.  A returned value is [EFI_OUT_OF_RESOURCES], [EFI_DEVICE_ERROR],
    the status of the size probe when it is not buffer-too-small, or the
    status of the exit call when [EFI_ERROR] holds for it.  When the memory
    manager and the hot services are up, the probe answers
    buffer-too-small and [EFI_ERROR] does not hold for the status of the
    exit call, [main] never returns. *)
Theorem C7_main_return_values
    (uart_read : nat -> byte) (F : Type) (inits : module -> run uart bool)
    (SystemTable : EFI_SYSTEM_TABLE F) (ImageHandle : EFI_HANDLE) (w : world F) :
  let bs := BootServices SystemTable in
  eventually_empty uart_read ->
  (forall m : module, total (inits m)) ->
  (wp (main uart_read F inits SystemTable ImageHandle) w
     (fun status _ =>
        status = EFI_OUT_OF_RESOURCES \/
        status = EFI_DEVICE_ERROR \/
        (status = probe_status bs (fw w) /\ status <> EFI_BUFFER_TOO_SMALL) \/
        (probe_status bs (fw w) = EFI_BUFFER_TOO_SMALL /\
         status = exit_status bs ImageHandle (fw w) /\
         EFI_ERROR status = true))
   \/
   (forall n : nat, main uart_read F inits SystemTable ImageHandle n w = None))
  /\
  (reports (inits Memory) true ->
   reports (inits HotServices) true ->
   probe_status bs (fw w) = EFI_BUFFER_TOO_SMALL ->
   EFI_ERROR (exit_status bs ImageHandle (fw w)) = false ->
   forall n : nat, main uart_read F inits SystemTable ImageHandle n w = None).
Proof.
  intros bs fair Ht. split.
  - destruct (boot_outcomes uart_read F inits fair Ht SystemTable ImageHandle w)
      as (r & w' & Hc & Hr).
    destruct r as [status|].
    + left. apply main_returns. exists (Abort status), w'.
      split; [exact Hc|]. exists status. split; [reflexivity|exact Hr].
    + right. apply main_never_returns. exists Proceed, w'.
      split; [exact Hc|reflexivity].
  - intros Hm Hh Hp He. apply main_never_returns.
    apply boot_proceeds; assumption.
Qed.

Lemma C7_never_returns_witness :
  (forall m : module, total (source_inits every_other m)) /\
  EFI_ERROR (exit_status (fixed_firmware EFI_BUFFER_TOO_SMALL EFI_SUCCESS) 77 tt)
    = false /\
  forall n : nat,
    main every_other unit (source_inits every_other)
      (mkSystemTable (fixed_firmware EFI_BUFFER_TOO_SMALL EFI_SUCCESS)) 77
      n (power_on tt) = None.
Proof.
  assert (Htot : forall m : module, total (source_inits every_other m)).
  { intros m. apply (reports_total _ true).
    apply source_inits_report, every_other_fair. }
  split; [exact Htot|]. split; [reflexivity|].
  apply (C7_main_return_values every_other unit (source_inits every_other)
           (mkSystemTable (fixed_firmware EFI_BUFFER_TOO_SMALL EFI_SUCCESS)) 77
           (power_on tt) every_other_fair Htot).
  - apply source_inits_report, every_other_fair.
  - apply source_inits_report, every_other_fair.
  - reflexivity.
  - reflexivity.
Defined.

(** C7 as stated fails: when the size probe answers [EFI_NOT_READY],
    [main] returns [EFI_NOT_READY], which is neither of the two signals. *)
Lemma C7_third_value_counterexample :
  wp (main always_ready unit (source_inits always_ready)
        (mkSystemTable (fixed_firmware EFI_NOT_READY EFI_SUCCESS)) 77)
    (power_on tt)
    (fun status _ =>
       status = EFI_NOT_READY /\
       status <> EFI_OUT_OF_RESOURCES /\ status <> EFI_DEVICE_ERROR).
Proof.
  apply main_returns.
  eapply wp_weaken.
  - apply (probe_failure_path always_ready unit (source_inits always_ready)
             always_ready_fair _ 77 (power_on tt) true true true).
    + repeat split; apply source_inits_report, always_ready_fair.
    + discriminate.
  - intros r w' [-> _]. eexists. split; [reflexivity|].
    repeat split; discriminate.
Qed.

(** C8.  [EFI_ERROR] is false of every error code the header defines.
    So when the exit primitive returns one of them (after a probe that
    answered buffer-too-small, the fatal modules being up), the failure
    branch is not taken: no error diagnostic is emitted, the messages of a
    successful exit and of the entry into the loop follow the exit call,
    the boot sequence reaches the loop and [main] never returns. *)
Theorem C8_header_codes_are_not_errors (code : EFI_STATUS) :
  In code header_error_codes ->
  EFI_ERROR code = false /\
  forall (uart_read : nat -> byte) (F : Type) (inits : module -> run uart bool)
         (SystemTable : EFI_SYSTEM_TABLE F) (ImageHandle : EFI_HANDLE)
         (w : world F) (d f g : bool),
    let bs := BootServices SystemTable in
    eventually_empty uart_read ->
    reports (inits Memory) true ->
    reports (inits Devices) d ->
    reports (inits FileSystem) f ->
    reports (inits Graphics) g ->
    reports (inits HotServices) true ->
    probe_status bs (fw w) = EFI_BUFFER_TOO_SMALL ->
    exit_status bs ImageHandle (fw w) = code ->
    wp (boot_sequence uart_read F inits SystemTable ImageHandle) w
      (fun r w' =>
         r = Proceed /\
         exists new pre : list event,
           trace w' = trace w ++ new /\
           new = pre ++
                 ExitBootServicesCall ImageHandle (probe_key bs (fw w)) code ::
                 completion /\
           errors new = []) /\
    forall n : nat, main uart_read F inits SystemTable ImageHandle n w = None.
Proof.
  intros Hin.
  assert (Hcode : EFI_ERROR code = false).
  { simpl in Hin. repeat (destruct Hin as [<-|Hin]; [reflexivity|]). destruct Hin. }
  split; [exact Hcode|].
  intros uart_read F inits SystemTable ImageHandle w d f g bs
         fair Hm Hd Hf Hg Hh Hp He.
  assert (Hup : modules_up inits d f g) by (repeat split; assumption).
  rewrite <- He in Hcode.
  pose proof (proceed_path uart_read F inits fair SystemTable ImageHandle w
                d f g Hup Hp Hcode) as Hpath.
  fold bs in Hpath. rewrite He in Hpath.
  split.
  - eapply wp_weaken; [exact Hpath|].
    intros r w' [-> Ht]. split; [reflexivity|].
    eexists _, (preamble ++ modules_trace d f g ++
                [Puts msg_exiting;
                 GetMemoryMapCall 0 None EFI_BUFFER_TOO_SMALL (probe_key bs (fw w))]).
    split; [exact Ht|].
    destruct d, f, g; split; reflexivity.
  - apply main_never_returns.
    eapply wp_weaken; [exact Hpath|]. intros r w' [-> _]. reflexivity.
Qed.

Lemma C8_aborted_exit_witness :
  In EFI_ABORTED header_error_codes /\
  EFI_ERROR EFI_ABORTED = false /\
  forall n : nat,
    main always_ready unit (source_inits always_ready)
      (mkSystemTable (fixed_firmware EFI_BUFFER_TOO_SMALL EFI_ABORTED)) 77
      n (power_on tt) = None.
Proof.
  assert (Hin : In EFI_ABORTED header_error_codes) by (simpl; auto 12).
  split; [exact Hin|].
  destruct (C8_header_codes_are_not_errors EFI_ABORTED Hin) as [Hc Hrun].
  split; [exact Hc|].
  apply (Hrun always_ready unit (source_inits always_ready)
           (mkSystemTable (fixed_firmware EFI_BUFFER_TOO_SMALL EFI_ABORTED)) 77
           (power_on tt) true true true);
    try (apply source_inits_report); try (apply always_ready_fair);
    reflexivity.
Defined.

(** C9.  When the transmit buffer is empty again and again, [debug_putc]
    returns for every byte [c] and the accesses it added to the bus are:
    reads that found the flag clear, a read that found it set, the write
    of [c], and, when [c] is a line feed, the same once more for a
    carriage return.  [debug_puts] returns for every string and the bytes
    that go out are the bytes before the terminating zero in their order,
    a carriage return after every line feed, each one sent in that way. *)
Theorem C9_channel_emits_in_order (uart_read : nat -> byte) :
  eventually_empty uart_read ->
  (forall (c : byte) (u : uart),
     exists (u' : uart) (l : list bus_op),
       converges (debug_putc uart_read c) u tt u' /\
       bus u' = bus u ++ l /\
       bytes_sent (if Byte.eqb c LF then [LF; CR] else [c]) l /\
       tx u' = tx u ++ (if Byte.eqb c LF then [LF; CR] else [c])) /\
  (forall (s rest : list byte) (u : uart),
     ~ In x00 s ->
     exists (u' : uart) (l : list bus_op),
       converges (debug_puts uart_read (s ++ x00 :: rest)) u tt u' /\
       bus u' = bus u ++ l /\
       bytes_sent (flat_map crlf s) l /\
       tx u' = tx u ++ flat_map crlf s).
Proof.
  intros fair. split.
  - intros c u.
    destruct (debug_putc_spec uart_read fair c u) as (u' & l & Hc & Hb & Hs).
    exists u', l. split; [exact Hc|]. split; [exact Hb|]. split; [exact Hs|].
    unfold tx. rewrite Hb, tx_of_app, (bytes_sent_tx _ _ Hs). reflexivity.
  - intros s rest u Hs.
    destruct (debug_puts_spec uart_read fair (s ++ x00 :: rest)) with (u := u)
      as (u' & l & Hc & Hb & Hl).
    { apply in_or_app. right. left. reflexivity. }
    rewrite (c_prefix_terminated s rest Hs) in Hl.
    exists u', l. split; [exact Hc|]. split; [exact Hb|]. split; [exact Hl|].
    unfold tx. rewrite Hb, tx_of_app, (bytes_sent_tx _ _ Hl). reflexivity.
Qed.

Lemma C9_channel_witness :
  eventually_empty every_other /\
  exists u' : uart,
    converges (debug_puts every_other (c_str ("ok" ++ nl))) uart_reset tt u' /\
    tx u' = ["o"; "k"; LF; CR]%byte.
Proof.
  split; [exact every_other_fair|].
  destruct (C9_channel_emits_in_order every_other every_other_fair)
    as (_ & Hputs).
  destruct (Hputs ["o"; "k"; LF]%byte [] uart_reset) as (u' & l & Hc & _ & _ & Ht).
  { intros [H|[H|[H|[]]]]; discriminate. }
  exists u'. split; [exact Hc|exact Ht].
Defined.

(** C10.  When the routines of the arrays return, [_init] returns and has
    called the entries of the constructor array that are not null, each one
    once, in ascending order of their indices, and no other: the calls are
    recorded in that order, and the machine is in the state that running
    those routines one after the other, each from the state the one before
    left, leads to; a null entry changes nothing; the firmware is left
    alone.  [_fini] does the same on the destructor array. *)
Theorem C10_static_initialization_order
    (F : Type) (__init_array __fini_array : list entry) (w : world F) :
  entries_total __init_array ->
  entries_total __fini_array ->
  wp (_init __init_array) w
    (fun _ w' =>
       trace w' = trace w ++ map Ctor (nonnull_from __init_array 0) /\
       entries_run __init_array (hw w) (hw w') /\
       fw w' = fw w) /\
  wp (_fini __fini_array) w
    (fun _ w' =>
       trace w' = trace w ++ map Dtor (nonnull_from __fini_array 0) /\
       entries_run __fini_array (hw w) (hw w') /\
       fw w' = fw w) /\
  (forall entries : list entry,
     StronglySorted lt (nonnull_from entries 0) /\
     NoDup (nonnull_from entries 0) /\
     forall i : nat,
       In i (nonnull_from entries 0) <->
       exists f : run uart unit, nth_error entries i = Some (Some f)).
Proof.
  intros Hi Hf. split; [|split].
  - apply (call_entries_runs Ctor __init_array Hi 0%nat w).
  - apply (call_entries_runs Dtor __fini_array Hf 0%nat w).
  - intros entries. split; [apply nonnull_from_ascending|]. split.
    + pose proof (nonnull_from_ascending entries 0) as Hs.
      induction Hs as [|a l _ IH Ha]; constructor; [|exact IH].
      intros Hin. rewrite Forall_forall in Ha. specialize (Ha a Hin). lia.
    + intros i. rewrite nonnull_from_complete. simpl.
      split; intros (k & H); [destruct H as (f & -> & H)|]; eauto.
Qed.

Lemma C10_static_initialization_witness :
  entries_total [put_byte "a"; None; put_byte "b"] /\
  wp (_init (F := unit) [put_byte "a"; None; put_byte "b"]) (power_on tt)
    (fun _ w' =>
       trace w' = [Ctor 0; Ctor 2] /\ tx (hw w') = ["a"; "b"]%byte) /\
  wp (_fini (F := unit) [None; put_byte "z"]) (power_on tt)
    (fun _ w' => trace w' = [Dtor 1] /\ tx (hw w') = ["z"]%byte).
Proof.
  assert (Hput : forall c : byte, total (debug_putc always_ready c)).
  { intros c u.
    destruct (debug_putc_spec always_ready always_ready_fair c u)
      as (u' & l & Hc & _).
    exists tt, u'. exact Hc. }
  assert (H1 : entries_total [put_byte "a"; None; put_byte "b"]).
  { repeat constructor; apply Hput. }
  assert (H2 : entries_total [None; put_byte "z"]).
  { repeat constructor; apply Hput. }
  split; [exact H1|].
  destruct (C10_static_initialization_order unit
              [put_byte "a"; None; put_byte "b"] [None; put_byte "z"]
              (power_on tt) H1 H2) as (Hinit & Hfini & _).
  split.
  - eapply wp_weaken; [exact Hinit|].
    intros [] w' (Ht & Hr & _). split; [exact Ht|].
    apply entries_run_some in Hr. destruct Hr as (u1 & Ha & Hr).
    apply entries_run_none in Hr.
    apply entries_run_some in Hr. destruct Hr as (u2 & Hb & Hr).
    apply entries_run_end in Hr. subst u2.
    rewrite (put_byte_run _ _ _ Hb), (put_byte_run _ _ _ Ha). reflexivity.
  - eapply wp_weaken; [exact Hfini|].
    intros [] w' (Ht & Hr & _). split; [exact Ht|].
    apply entries_run_none in Hr.
    apply entries_run_some in Hr. destruct Hr as (u1 & Ha & Hr).
    apply entries_run_end in Hr. subst u1.
    rewrite (put_byte_run _ _ _ Ha). reflexivity.
Defined.

(** * Further properties of the code *)

(** ** [memcpy] and [memset] *)

Lemma store_same (m : memory) (a : Z) (b : byte) : store m a b a = b.
Proof. unfold store. rewrite Z.eqb_refl. reflexivity. Qed.

Lemma store_other (m : memory) (a x : Z) (b : byte) :
  x <> a -> store m a b x = m x.
Proof. intros H. unfold store. apply Z.eqb_neq in H. rewrite H. reflexivity. Qed.

(** The loop writes to the [n] bytes from [d] on only. *)
Lemma memcpy_loop_frame (n : nat) :
  forall (d s : Z) (m : memory) (a : Z),
    a < d \/ d + Z.of_nat n <= a -> memcpy_loop n d s m a = m a.
Proof.
  induction n as [|n IH]; intros d s m a Ha; [reflexivity|].
  simpl. rewrite IH by lia. apply store_other. lia.
Qed.

(** With the destination [p > 0] bytes after the source, byte [i] of the
    destination ends as byte [i mod p] of the source was. *)
Lemma memcpy_loop_forward (n : nat) :
  forall (d s : Z) (m : memory) (i : Z),
    s < d -> 0 <= i < Z.of_nat n ->
    memcpy_loop n d s m (d + i) = m (s + i mod (d - s)).
Proof.
  induction n as [|n IH]; intros d s m i Hp Hi; [lia|].
  simpl. destruct (Z.eq_dec i 0) as [->|Hi0].
  - rewrite Z.add_0_r, memcpy_loop_frame by lia.
    rewrite store_same, Z.mod_0_l by lia. f_equal. lia.
  - replace (d + i) with (d + 1 + (i - 1)) by lia.
    rewrite IH by lia.
    replace (d + 1 - (s + 1)) with (d - s) by lia.
    set (p := d - s) in *. assert (Hp0 : 0 < p) by (unfold p; lia).
    pose proof (Z.mod_pos_bound (i - 1) p Hp0) as Hr.
    destruct (Z.eq_dec ((i - 1) mod p) (p - 1)) as [E|E].
    + replace (s + 1 + (i - 1) mod p) with d by (unfold p in *; lia).
      rewrite store_same. f_equal.
      assert (Hm : i mod p = 0).
      { pose proof (Z.div_mod (i - 1) p ltac:(lia)) as Hd. rewrite E in Hd.
        replace i with (((i - 1) / p + 1) * p) by lia. apply Z.mod_mul. lia. }
      lia.
    + rewrite store_other by (unfold p in *; lia). f_equal.
      assert (Hm : i mod p = (i - 1) mod p + 1).
      { pose proof (Z.div_mod (i - 1) p ltac:(lia)) as Hd.
        symmetry. apply (Z.mod_unique_pos i p ((i - 1) / p)); lia. }
      lia.
Qed.

(** With the destination at the source or before it, byte [i] of the
    destination ends as byte [i] of the source was. *)
Lemma memcpy_loop_backward (n : nat) :
  forall (d s : Z) (m : memory) (i : Z),
    d <= s -> 0 <= i < Z.of_nat n ->
    memcpy_loop n d s m (d + i) = m (s + i).
Proof.
  induction n as [|n IH]; intros d s m i Hp Hi; [lia|].
  simpl. destruct (Z.eq_dec i 0) as [->|Hi0].
  - rewrite !Z.add_0_r, memcpy_loop_frame by lia. apply store_same.
  - replace (d + i) with (d + 1 + (i - 1)) by lia.
    rewrite IH by lia. rewrite store_other by lia. f_equal. lia.
Qed.

Lemma memset_loop_frame (n : nat) :
  forall (p c : Z) (m : memory) (a : Z),
    a < p \/ p + Z.of_nat n <= a -> memset_loop n p c m a = m a.
Proof.
  induction n as [|n IH]; intros p c m a Ha; [reflexivity|].
  simpl. rewrite IH by lia. apply store_other. lia.
Qed.

Lemma memset_loop_fill (n : nat) :
  forall (p c : Z) (m : memory) (i : Z),
    0 <= i < Z.of_nat n -> memset_loop n p c m (p + i) = to_uint8 c.
Proof.
  induction n as [|n IH]; intros p c m i Hi; [lia|].
  simpl. destruct (Z.eq_dec i 0) as [->|Hi0].
  - rewrite Z.add_0_r, memset_loop_frame by lia. apply store_same.
  - replace (p + i) with (p + 1 + (i - 1)) by lia. apply IH. lia.
Qed.

Lemma to_uint8_value (z : Z) : Z.of_N (Byte.to_N (to_uint8 z)) = z mod 256.
Proof.
  unfold to_uint8.
  pose proof (Z.mod_pos_bound z 256 ltac:(lia)) as Hb.
  destruct (Byte.of_N (Z.to_N (z mod 256))) as [b|] eqn:E.
  - apply Byte.to_of_N in E. rewrite E. lia.
  - apply Byte.of_N_None_iff in E. lia.
Qed.

Lemma to_UINTN_small (n : Z) : 0 <= n < 2 ^ 64 -> to_UINTN n = n.
Proof. intros H. unfold to_UINTN, UINTN_bits. apply Z.mod_small. exact H. Qed.

(** X1.  When the destination starts at or before the source, or at or
    after its end, [memcpy] returns [dest], the [n] bytes from [dest] on
    are the [n] bytes that were at [src], and every byte outside the
    destination is as it was.  (A destination that starts before the
    source may overlap it.) *)
Theorem memcpy_copies (dest src n : Z) (m : memory) :
  0 <= n < 2 ^ 64 ->
  dest <= src \/ src + n <= dest ->
  fst (memcpy dest src n m) = dest /\
  (forall i : Z, 0 <= i < n -> snd (memcpy dest src n m) (dest + i) = m (src + i)) /\
  (forall a : Z, a < dest \/ dest + n <= a -> snd (memcpy dest src n m) a = m a).
Proof.
  intros Hn Hsep. unfold memcpy. simpl. rewrite (to_UINTN_small n Hn).
  split; [reflexivity|]. split.
  - intros i Hi. destruct (Z_le_gt_dec dest src) as [Hle|Hgt].
    + apply memcpy_loop_backward; lia.
    + rewrite memcpy_loop_forward by lia.
      rewrite Z.mod_small by lia. reflexivity.
  - intros a Ha. apply memcpy_loop_frame. lia.
Qed.

Lemma memcpy_copies_witness :
  0 <= 6 < 2 ^ 64 /\ (3 <= 5 \/ 5 + 6 <= 3) /\
  snd (memcpy 3 5 6 ramp) (3 + 4) = ramp (5 + 4) /\
  snd (memcpy 3 5 6 ramp) 9 = ramp 9.
Proof.
  assert (Hn : 0 <= 6 < 2 ^ 64) by lia.
  assert (Hs : 3 <= 5 \/ 5 + 6 <= 3) by lia.
  destruct (memcpy_copies 3 5 6 ramp Hn Hs) as (_ & Hcopy & Hframe).
  split; [exact Hn|]. split; [exact Hs|]. split.
  - apply Hcopy. lia.
  - apply Hframe. lia.
Defined.

(** X2.  When the destination starts inside the source, [p] bytes after
    its start, [memcpy] does not copy the source: the first [p] bytes of
    the source are repeated, byte [i] of the destination ends as byte
    [i mod p] of the source was.  With [p = 1] the whole destination is
    filled with the first byte of the source. *)
Theorem memcpy_overlap_repeats (dest src n : Z) (m : memory) :
  0 <= n < 2 ^ 64 ->
  src < dest ->
  (forall i : Z,
     0 <= i < n ->
     snd (memcpy dest src n m) (dest + i) = m (src + i mod (dest - src))) /\
  (dest = src + 1 ->
   forall i : Z, 0 <= i < n -> snd (memcpy dest src n m) (dest + i) = m src).
Proof.
  intros Hn Hp. unfold memcpy. simpl. rewrite (to_UINTN_small n Hn).
  split.
  - intros i Hi. apply memcpy_loop_forward; lia.
  - intros -> i Hi. rewrite memcpy_loop_forward by lia.
    replace (src + 1 - src) with 1 by lia. rewrite Z.mod_1_r. f_equal. lia.
Qed.

Lemma memcpy_overlap_witness :
  0 <= 6 < 2 ^ 64 /\ 0 < 3 /\
  snd (memcpy 3 0 6 ramp) (3 + 5) = ramp 2 /\
  snd (memcpy 3 0 6 ramp) (3 + 5) <> ramp (0 + 5).
Proof.
  assert (Hn : 0 <= 6 < 2 ^ 64) by lia.
  assert (Hp : 0 < 3) by lia.
  destruct (memcpy_overlap_repeats 3 0 6 ramp Hn Hp) as (Hrep & _).
  split; [exact Hn|]. split; [exact Hp|].
  assert (H5 : snd (memcpy 3 0 6 ramp) (3 + 5) = ramp 2).
  { rewrite Hrep by lia. reflexivity. }
  split; [exact H5|]. rewrite H5. discriminate.
Defined.

(** X3.  [memset] returns [s]; the [n] bytes from [s] on are the low
    eight bits of [c] ([c mod 256], so [-1] gives [0xFF]); every byte
    outside them is as it was. *)
Theorem memset_fills (s c n : Z) (m : memory) :
  0 <= n < 2 ^ 64 ->
  fst (memset s c n m) = s /\
  (forall i : Z,
     0 <= i < n ->
     Z.of_N (Byte.to_N (snd (memset s c n m) (s + i))) = c mod 256) /\
  (forall a : Z, a < s \/ s + n <= a -> snd (memset s c n m) a = m a).
Proof.
  intros Hn. unfold memset. simpl. rewrite (to_UINTN_small n Hn).
  split; [reflexivity|]. split.
  - intros i Hi. rewrite memset_loop_fill by lia. apply to_uint8_value.
  - intros a Ha. apply memset_loop_frame. lia.
Qed.

Lemma memset_fills_witness :
  0 <= 3 < 2 ^ 64 /\
  Z.of_N (Byte.to_N (snd (memset 2 (-1) 3 ramp) (2 + 2))) = 255 /\
  snd (memset 2 (-1) 3 ramp) 5 = ramp 5.
Proof.
  assert (Hn : 0 <= 3 < 2 ^ 64) by lia.
  destruct (memset_fills 2 (-1) 3 ramp Hn) as (_ & Hfill & Hframe).
  split; [exact Hn|]. split.
  - rewrite Hfill by lia. reflexivity.
  - apply Hframe. lia.
Defined.

(** ** [strlen] *)

Lemma to_UINTN_range (z : Z) : 0 <= to_UINTN z < 2 ^ 64.
Proof. unfold to_UINTN, UINTN_bits. apply Z.mod_pos_bound. lia. Qed.

Lemma strlen_from_terminated (s rest : list byte) :
  ~ In x00 s ->
  forall len : Z,
    0 <= len < 2 ^ 64 ->
    strlen_from (s ++ x00 :: rest) len = Some (to_UINTN (len + Z.of_nat (List.length s))).
Proof.
  induction s as [|c s IH]; intros Hs len Hlen.
  - simpl. rewrite Z.add_0_r, to_UINTN_small by exact Hlen. reflexivity.
  - cbn [app strlen_from]. destruct (Byte.eqb c x00) eqn:E.
    + apply byte_eqb_eq in E. subst c. exfalso. apply Hs. left. reflexivity.
    + rewrite IH; [|intros Hin; apply Hs; right; exact Hin|apply to_UINTN_range].
      f_equal. unfold to_UINTN. rewrite Zplus_mod_idemp_l. f_equal.
      cbn [List.length]. lia.
Qed.

Lemma strlen_from_unterminated (str : list byte) :
  ~ In x00 str -> forall len : Z, strlen_from str len = None.
Proof.
  induction str as [|c str IH]; intros Hs len; [reflexivity|].
  simpl. destruct (Byte.eqb c x00) eqn:E.
  - apply byte_eqb_eq in E. subst c. exfalso. apply Hs. left. reflexivity.
  - apply IH. intros Hin. apply Hs. right. exact Hin.
Qed.

(** A buffer with a zero byte splits at the first one. *)
Lemma first_zero_split (str : list byte) :
  In x00 str ->
  exists s rest : list byte, str = s ++ x00 :: rest /\ ~ In x00 s.
Proof.
  induction str as [|c str IH]; intros Hin; [destruct Hin|].
  destruct (Byte.byte_eq_dec c x00) as [->|Hc].
  - exists [], str. split; [reflexivity|intros []].
  - destruct Hin as [H|Hin]; [congruence|].
    destruct (IH Hin) as (s & rest & -> & Hs).
    exists (c :: s), rest. split; [reflexivity|].
    intros [H|H]; [congruence|exact (Hs H)].
Qed.

Lemma crlf_length (s : list byte) :
  List.length (flat_map crlf s) = (List.length s + List.length (filter (Byte.eqb LF) s))%nat.
Proof.
  induction s as [|c s IH]; [reflexivity|].
  cbn [flat_map filter]. rewrite length_app, IH. unfold crlf.
  destruct (Byte.eqb c LF) eqn:E.
  - apply byte_eqb_eq in E. subst c. simpl. lia.
  - assert (E' : Byte.eqb LF c = false).
    { destruct (Byte.eqb LF c) eqn:E'; [|reflexivity].
      apply byte_eqb_eq in E'. subst c. discriminate. }
    rewrite E'. simpl. lia.
Qed.

(** X4.  [strlen] returns the number of bytes before the first zero byte
    of the buffer, whatever follows it; on a buffer without a zero byte it
    has no defined result. *)
Theorem strlen_counts_to_first_zero (s rest : list byte) :
  ~ In x00 s ->
  Z.of_nat (List.length s) < 2 ^ 64 ->
  strlen (s ++ x00 :: rest) = Some (Z.of_nat (List.length s)) /\
  strlen s = None.
Proof.
  intros Hs Hlen. unfold strlen. split.
  - rewrite strlen_from_terminated by (try exact Hs; lia).
    rewrite to_UINTN_small by lia. reflexivity.
  - apply strlen_from_unterminated. exact Hs.
Qed.

Lemma strlen_counts_witness :
  ~ In x00 ["o"; "k"]%byte /\
  strlen ["o"; "k"; x00; "!"; x00]%byte = Some 2 /\
  strlen ["o"; "k"]%byte = None.
Proof.
  assert (Hs : ~ In x00 ["o"; "k"]%byte) by (intros [H|[H|[]]]; discriminate).
  split; [exact Hs|].
  apply (strlen_counts_to_first_zero ["o"; "k"]%byte ["!"; x00]%byte Hs).
  simpl. lia.
Defined.

(** X5.  [debug_puts] sends what [strlen] measures: when [strlen str]
    is [k], [debug_puts str] returns having sent the first [k] bytes of
    the buffer, a carriage return after each line feed, and nothing else;
    that is [k] bytes and one more for every line feed among them. *)
Theorem debug_puts_sends_strlen_bytes
    (uart_read : nat -> byte) (str : list byte) (k : Z) (u : uart) :
  eventually_empty uart_read ->
  Z.of_nat (List.length str) <= 2 ^ 64 ->
  strlen str = Some k ->
  exists u' : uart,
    converges (debug_puts uart_read str) u tt u' /\
    tx u' = tx u ++ flat_map crlf (firstn (Z.to_nat k) str) /\
    Z.of_nat (List.length (tx u')) =
      Z.of_nat (List.length (tx u)) + k +
      Z.of_nat (List.length (filter (Byte.eqb LF) (firstn (Z.to_nat k) str))).
Proof.
  intros fair Hlen Hk.
  assert (Hin : In x00 str).
  { destruct (in_dec Byte.byte_eq_dec x00 str) as [H|H]; [exact H|].
    unfold strlen in Hk. rewrite strlen_from_unterminated in Hk by exact H.
    discriminate. }
  destruct (first_zero_split str Hin) as (s & rest & -> & Hs).
  rewrite length_app in Hlen. cbn [List.length] in Hlen.
  unfold strlen in Hk. rewrite strlen_from_terminated in Hk by (try exact Hs; lia).
  rewrite to_UINTN_small in Hk by lia. injection Hk as <-.
  rewrite Nat2Z.id.
  replace (firstn (List.length s) (s ++ x00 :: rest)) with s
    by (rewrite firstn_app, Nat.sub_diag, firstn_all; cbn [firstn];
        rewrite app_nil_r; reflexivity).
  destruct (debug_puts_spec uart_read fair (s ++ x00 :: rest) Hin u)
    as (u' & l & Hc & Hb & Hl).
  rewrite (c_prefix_terminated s rest Hs) in Hl.
  assert (Htx : tx u' = tx u ++ flat_map crlf s).
  { unfold tx. rewrite Hb, tx_of_app, (bytes_sent_tx _ _ Hl). reflexivity. }
  exists u'. split; [exact Hc|]. split; [exact Htx|].
  rewrite Htx, length_app, crlf_length. lia.
Qed.

Lemma debug_puts_strlen_witness :
  strlen (c_str ("ok" ++ nl)) = Some 3 /\
  exists u' : uart,
    converges (debug_puts every_other (c_str ("ok" ++ nl))) uart_reset tt u' /\
    Z.of_nat (List.length (tx u')) = 4.
Proof.
  split; [reflexivity|].
  destruct (debug_puts_sends_strlen_bytes every_other (c_str ("ok" ++ nl)) 3
              uart_reset every_other_fair) as (u' & Hc & _ & Hn).
  - simpl. lia.
  - reflexivity.
  - exists u'. split; [exact Hc|]. rewrite Hn. reflexivity.
Defined.

(** ** [kernel_assert] *)

Lemma halt_never_returns (n : nat) (u : uart) : halt n u = None.
Proof. induction n as [|n IH]; [reflexivity|exact IH]. Qed.

Lemma to_int_range (z : Z) : - 2 ^ 31 <= to_int z < 2 ^ 31.
Proof.
  unfold to_int. pose proof (Z.mod_pos_bound z (2 ^ 32) ltac:(lia)) as H.
  destruct (z mod 2 ^ 32 <? 2 ^ 31) eqn:E.
  - apply Z.ltb_lt in E. lia.
  - apply Z.ltb_ge in E. lia.
Qed.

Lemma to_int_small (z : Z) : - 2 ^ 31 <= z < 2 ^ 31 -> 0 <= z -> to_int z = z.
Proof.
  intros H H0. unfold to_int. rewrite Z.mod_small by lia.
  destruct (z <? 2 ^ 31) eqn:E; [reflexivity|]. apply Z.ltb_ge in E. lia.
Qed.

Lemma decimal_value_rev (lineStr : list byte) :
  decimal_value (rev lineStr) = lsb_value lineStr.
Proof.
  unfold decimal_value, lsb_value.
  pose proof (fold_left_rev_right
                (fun (b : byte) (acc : Z) => 10 * acc + (Z.of_N (Byte.to_N b) - 48))
                (rev lineStr) 0) as H.
  rewrite rev_involutive in H. symmetry. exact H.
Qed.

Lemma digit_char (r : Z) :
  0 <= r < 10 ->
  Z.of_N (Byte.to_N (to_uint8 (r + 48))) = r + 48 /\
  is_digit (to_uint8 (r + 48)) = true.
Proof.
  intros Hr.
  assert (Hv : Z.of_N (Byte.to_N (to_uint8 (r + 48))) = r + 48).
  { rewrite to_uint8_value. apply Z.mod_small. lia. }
  split; [exact Hv|]. unfold is_digit. rewrite Hv.
  apply andb_true_iff. split; apply Z.leb_le; lia.
Qed.

Lemma line_digits_step (room : nat) (n : Z) :
  line_digits (S room) n =
  if 0 <? Z.quot n 10
  then option_map (cons (to_uint8 (Z.rem n 10 + 48)))
         (line_digits room (Z.quot n 10))
  else Some [to_uint8 (Z.rem n 10 + 48)].
Proof. reflexivity. Qed.

(** A line number that is not negative: its decimal digits, the least
    significant first, as many as it has. *)
Lemma line_digits_decimal (room : nat) :
  forall n : Z,
    0 <= n < 10 ^ Z.of_nat (S room) ->
    exists lineStr : list byte,
      line_digits (S room) n = Some lineStr /\
      lsb_value lineStr = n /\
      forallb is_digit lineStr = true /\
      (n = 0 -> lineStr = ["0"%byte]) /\
      (0 < n -> 10 ^ (Z.of_nat (List.length lineStr) - 1) <= n).
Proof.
  induction room as [|room IH]; intros n Hn;
    pose proof (Z.rem_mod_nonneg n 10 ltac:(lia) ltac:(lia)) as Hrem;
    pose proof (Z.quot_div_nonneg n 10 ltac:(lia) ltac:(lia)) as Hquot;
    pose proof (Z.mod_pos_bound n 10 ltac:(lia)) as Hr;
    pose proof (Z.div_mod n 10 ltac:(lia)) as Hdm;
    destruct (digit_char (n mod 10) Hr) as [Hv Hd];
    rewrite line_digits_step, Hrem, Hquot;
    destruct (0 <? n / 10) eqn:E.
  - apply Z.ltb_lt in E. change (10 ^ Z.of_nat 1) with 10 in Hn. lia.
  - apply Z.ltb_ge in E. exists [to_uint8 (n mod 10 + 48)].
    assert (Hq : n / 10 = 0) by (pose proof (Z.div_pos n 10); lia).
    split; [reflexivity|]. split; [cbn; rewrite Hv; lia|].
    split; [cbn; rewrite Hd; reflexivity|]. split.
    + intros ->. reflexivity.
    + intros Hpos. cbn. lia.
  - apply Z.ltb_lt in E.
    destruct (IH (n / 10)) as (ds & Hds & Hval & Hall & _ & Hlen).
    { split; [lia|]. apply Z.div_lt_upper_bound; [lia|].
      rewrite <- Z.pow_succ_r by lia. rewrite <- Nat2Z.inj_succ. lia. }
    rewrite Hds. exists (to_uint8 (n mod 10 + 48) :: ds).
    split; [reflexivity|]. split.
    { change (10 * lsb_value ds +
              (Z.of_N (Byte.to_N (to_uint8 (n mod 10 + 48))) - 48) = n).
      rewrite Hv, Hval. lia. }
    split; [cbn; rewrite Hd; exact Hall|]. split; [lia|].
    intros _. specialize (Hlen E). cbn [List.length].
    rewrite Nat2Z.inj_succ.
    replace (Z.succ (Z.of_nat (List.length ds)) - 1)
      with (Z.succ (Z.of_nat (List.length ds) - 1)) by lia.
    assert (Hnz : (0 < List.length ds)%nat).
    { destruct ds; [cbn in Hval; lia|simpl; lia]. }
    rewrite Z.pow_succ_r by lia. lia.
  - apply Z.ltb_ge in E. exists [to_uint8 (n mod 10 + 48)].
    assert (Hq : n / 10 = 0) by (pose proof (Z.div_pos n 10); lia).
    split; [reflexivity|]. split; [cbn; rewrite Hv; lia|].
    split; [cbn; rewrite Hd; reflexivity|]. split.
    + intros ->. reflexivity.
    + intros Hpos. cbn. lia.
Qed.

(** A negative line number: the loop stops after one character. *)
Lemma line_digits_negative (room : nat) (n : Z) :
  n < 0 -> line_digits (S room) n = Some [to_uint8 (Z.rem n 10 + 48)].
Proof.
  intros Hn. rewrite line_digits_step.
  pose proof (Z.quot_rem' n 10) as Hq.
  pose proof (Z.rem_nonpos n 10 ltac:(lia) ltac:(lia)) as Hr.
  pose proof (Z.rem_bound_abs n 10 ltac:(lia)) as Hr'.
  destruct (0 <? Z.quot n 10) eqn:E; [|reflexivity].
  apply Z.ltb_lt in E. lia.
Qed.

Section AssertProofs.

Variable uart_read : nat -> byte.
Hypothesis fair : eventually_empty uart_read.

Lemma debug_puts_tx (str : list byte) :
  In x00 str ->
  forall u : uart,
  exists u' : uart,
    converges (debug_puts uart_read str) u tt u' /\
    tx u' = tx u ++ flat_map crlf (c_prefix str).
Proof.
  intros Hin u.
  destruct (debug_puts_spec uart_read fair str Hin u) as (u' & l & Hc & Hb & Hl).
  exists u'. split; [exact Hc|].
  unfold tx. rewrite Hb, tx_of_app, (bytes_sent_tx _ _ Hl). reflexivity.
Qed.

Lemma putc_all_tx (cs : list byte) :
  forall u : uart,
  exists u' : uart,
    converges (putc_all uart_read cs) u tt u' /\
    tx u' = tx u ++ flat_map crlf cs.
Proof.
  induction cs as [|c cs IH]; intros u.
  - exists u. split; [apply converges_ret|]. rewrite app_nil_r. reflexivity.
  - destruct (debug_putc_spec uart_read fair c u) as (u1 & l & Hc & Hb & Hl).
    destruct (IH u1) as (u2 & Hc2 & Ht2).
    exists u2. split; [eapply converges_bind; eassumption|].
    rewrite Ht2. unfold tx at 1. rewrite Hb, tx_of_app, (bytes_sent_tx _ _ Hl).
    cbn [flat_map]. rewrite <- app_assoc. reflexivity.
Qed.

End AssertProofs.

(** X6.  [kernel_assert] returns to its caller exactly when the condition
    holds, and then it has touched nothing: no read of the register and no
    write.  With a false condition it never returns, whatever the
    register answers. *)
Theorem kernel_assert_returns_iff_condition
    (uart_read : nat -> byte) (condition : bool) (file : list byte) (line : Z)
    (u : uart) :
  (condition = true ->
   forall n : nat, kernel_assert uart_read condition file line n u = Some (tt, u)) /\
  (condition = false ->
   forall n : nat, kernel_assert uart_read condition file line n u = None).
Proof.
  split; intros -> n; [reflexivity|].
  unfold kernel_assert. cbn [negb]. unfold bind at 1.
  destruct (kernel_assert_report uart_read file line n u) as [[[] u']|];
    [apply halt_never_returns|reflexivity].
Qed.

(** X7.  For a false condition and a line number that is not negative,
    [kernel_assert] sends, before it halts: the header, the file name up to
    its zero byte, a colon, the line number in decimal (its digits, most
    significant first, without leading zeros, ["0"] for line 0) and the
    closing message, a carriage return after every line feed. *)
Theorem kernel_assert_reports_file_and_line
    (uart_read : nat -> byte) (name rest : list byte) (line : Z) (u : uart) :
  eventually_empty uart_read ->
  ~ In x00 name ->
  0 <= line < 2 ^ 31 ->
  exists (u' : uart) (digits : list byte),
    converges (kernel_assert_report uart_read (name ++ x00 :: rest) line) u tt u' /\
    tx u' = tx u ++
            flat_map crlf
              (list_byte_of_string msg_assert_failed ++ name ++
               list_byte_of_string msg_assert_colon ++ digits ++
               list_byte_of_string msg_assert_halted) /\
    decimal_value digits = line /\
    forallb is_digit digits = true /\
    (line = 0 -> digits = ["0"%byte]) /\
    (0 < line -> 10 ^ (Z.of_nat (List.length digits) - 1) <= line).
Proof.
  intros fair Hname Hline.
  assert (Hfile : In x00 (name ++ x00 :: rest)).
  { apply in_or_app. right. left. reflexivity. }
  destruct (line_digits_decimal 15 line) as (ds & Hds & Hval & Hall & H0 & Hlen).
  { split; [lia|]. eapply Z.lt_trans; [apply Hline|]. reflexivity. }
  destruct (debug_puts_tx uart_read fair _ (c_str_terminated msg_assert_failed) u)
    as (u1 & Hc1 & Ht1).
  destruct (debug_puts_tx uart_read fair _ Hfile u1) as (u2 & Hc2 & Ht2).
  destruct (debug_puts_tx uart_read fair _ (c_str_terminated msg_assert_colon) u2)
    as (u3 & Hc3 & Ht3).
  destruct (putc_all_tx uart_read fair (rev ds) u3) as (u4 & Hc4 & Ht4).
  destruct (debug_puts_tx uart_read fair _ (c_str_terminated msg_assert_halted) u4)
    as (u5 & Hc5 & Ht5).
  exists u5, (rev ds). split; [|split; [|split; [|split; [|split]]]].
  - unfold kernel_assert_report.
    rewrite (to_int_small line) by lia. rewrite Hds.
    eapply converges_bind; [exact Hc1|].
    eapply converges_bind; [exact Hc2|].
    eapply converges_bind; [exact Hc3|].
    eapply converges_bind; [exact Hc4|exact Hc5].
  - rewrite Ht5, Ht4, Ht3, Ht2, Ht1.
    rewrite (c_prefix_terminated name rest Hname).
    rewrite !flat_map_app, <- !app_assoc. reflexivity.
  - rewrite decimal_value_rev. exact Hval.
  - rewrite forallb_forall in *. intros b Hb. apply Hall.
    apply in_rev. exact Hb.
  - intros Hz. rewrite (H0 Hz). reflexivity.
  - rewrite length_rev. exact Hlen.
Qed.

Lemma kernel_assert_report_witness :
  ~ In x00 ["a"; "."; "c"]%byte /\
  exists u' : uart,
    converges (kernel_assert_report every_other (c_str "a.c") 402) uart_reset tt u' /\
    exists digits : list byte,
      tx u' = flat_map crlf
                (list_byte_of_string msg_assert_failed ++ ["a"; "."; "c"]%byte ++
                 list_byte_of_string msg_assert_colon ++ digits ++
                 list_byte_of_string msg_assert_halted) /\
      decimal_value digits = 402.
Proof.
  assert (Hs : ~ In x00 ["a"; "."; "c"]%byte)
    by (intros [H|[H|[H|[]]]]; discriminate).
  split; [exact Hs|].
  destruct (kernel_assert_reports_file_and_line every_other
              ["a"; "."; "c"]%byte [] 402 uart_reset every_other_fair Hs)
    as (u' & digits & Hc & Ht & Hv & _).
  - lia.
  - exists u'. split; [exact Hc|]. exists digits. split; [exact Ht|exact Hv].
Defined.

(** X8.  The line number never overruns [lineStr]: for every [int] the
    loop stores at most ten characters in the array of sixteen.  For a
    negative line number it stores one character only, ['0'] plus the
    remainder of the line number by ten, which is no digit unless the
    remainder is zero. *)
Theorem kernel_assert_line_buffer (line : Z) :
  exists lineStr : list byte,
    line_digits 16 (to_int line) = Some lineStr /\
    (List.length lineStr <= 10)%nat /\
    (to_int line < 0 ->
     lineStr = [to_uint8 (Z.rem (to_int line) 10 + 48)] /\
     (Z.rem (to_int line) 10 <> 0 -> is_digit (to_uint8 (Z.rem (to_int line) 10 + 48)) = false)).
Proof.
  pose proof (to_int_range line) as Hr.
  destruct (Z_lt_ge_dec (to_int line) 0) as [Hneg|Hpos].
  - exists [to_uint8 (Z.rem (to_int line) 10 + 48)].
    split; [apply (line_digits_negative 15); exact Hneg|].
    split; [simpl; lia|]. intros _. split; [reflexivity|].
    intros Hrem.
    pose proof (Z.rem_nonpos (to_int line) 10 ltac:(lia) ltac:(lia)) as H1.
    pose proof (Z.rem_bound_abs (to_int line) 10 ltac:(lia)) as H2.
    unfold is_digit. rewrite to_uint8_value.
    rewrite Z.mod_small by lia.
    apply andb_false_iff. left. apply Z.leb_gt. lia.
  - destruct (line_digits_decimal 15 (to_int line)) as (ds & Hds & _ & _ & H0 & Hlen).
    { split; [lia|]. eapply Z.lt_trans; [apply Hr|]. reflexivity. }
    exists ds. split; [exact Hds|]. split; [|lia].
    destruct (Z.eq_dec (to_int line) 0) as [Hz|Hnz].
    + rewrite (H0 Hz). simpl. lia.
    + specialize (Hlen ltac:(lia)).
      destruct (le_gt_dec (List.length ds) 10) as [Hle|Hgt]; [exact Hle|].
      exfalso.
      assert (H10 : 10 ^ 10 <= 10 ^ (Z.of_nat (List.length ds) - 1)).
      { apply Z.pow_le_mono_r; lia. }
      assert (2 ^ 31 < 10 ^ 10) by reflexivity. lia.
Qed.

(** ** A transmit buffer that never empties *)

Lemma wait_never_returns (uart_read : nat -> byte) (n : nat) :
  forall u : uart,
    (forall j : nat, (polls u <= j)%nat -> tx_empty (uart_read j) = false) ->
    wait_tx_empty uart_read n u = None.
Proof.
  induction n as [|n IH]; intros u Hbusy; [reflexivity|].
  simpl. unfold bind, uart_poll. rewrite (Hbusy (polls u)) by lia.
  apply IH. intros j Hj. apply Hbusy. simpl in Hj. lia.
Qed.

Lemma bind_none {S A B : Type} (m : run S A) (f : A -> run S B) (n : nat) (s : S) :
  m n s = None -> bind m f n s = None.
Proof. intros H. unfold bind. rewrite H. reflexivity. Qed.

Lemma bind_some {S A B : Type} (m : run S A) (f : A -> run S B) (n : nat)
    (s s' : S) (a : A) :
  m n s = Some (a, s') -> bind m f n s = f a n s'.
Proof. intros H. unfold bind. rewrite H. reflexivity. Qed.

(** X9.  The channel can block.  When no read of the register from now
    on finds the transmit buffer empty, [debug_putc] never returns, and
    neither does [debug_puts] on any string but the empty one (which it
    passes without a read); [main], started on such a machine, never
    returns either, whatever the initializers and the firmware are. *)
Theorem busy_uart_blocks (uart_read : nat -> byte) (u : uart) :
  (forall j : nat, (polls u <= j)%nat -> tx_empty (uart_read j) = false) ->
  (forall (c : byte) (n : nat), debug_putc uart_read c n u = None) /\
  (forall (c : byte) (str : list byte) (n : nat),
     c <> x00 -> debug_puts uart_read (c :: str) n u = None) /\
  (forall (str : list byte) (n : nat),
     debug_puts uart_read (x00 :: str) n u = Some (tt, u)) /\
  (forall (F : Type) (inits : module -> run uart bool)
          (SystemTable : EFI_SYSTEM_TABLE F) (ImageHandle : EFI_HANDLE)
          (w : world F) (n : nat),
     hw w = u ->
     main uart_read F inits SystemTable ImageHandle n w = None).
Proof.
  intros Hbusy.
  assert (Hputc : forall (c : byte) (n : nat), debug_putc uart_read c n u = None).
  { intros c [|n]; [reflexivity|]. simpl. apply bind_none.
    apply wait_never_returns. exact Hbusy. }
  assert (Hputs : forall (c : byte) (str : list byte) (n : nat),
             c <> x00 -> debug_puts uart_read (c :: str) n u = None).
  { intros c str n Hc. cbn [debug_puts].
    destruct (Byte.eqb c x00) eqn:E; [apply byte_eqb_eq in E; contradiction|].
    apply bind_none. apply Hputc. }
  split; [exact Hputc|]. split; [exact Hputs|]. split; [reflexivity|].
  intros F inits SystemTable ImageHandle w n Hw.
  unfold main. apply bind_none. unfold boot_sequence.
  erewrite bind_some by reflexivity. apply bind_none.
  unfold puts. erewrite bind_some by reflexivity.
  unfold on_hw. cbn [hw add_event]. rewrite Hw.
  change (c_str msg_banner_top) with (LF :: List.tl (c_str msg_banner_top)).
  rewrite Hputs by discriminate. reflexivity.
Qed.

Lemma busy_uart_witness :
  (forall j : nat, (polls uart_reset <= j)%nat -> tx_empty (never_ready j) = false) /\
  (forall n : nat,
     main never_ready unit (source_inits never_ready)
       (mkSystemTable (fixed_firmware EFI_BUFFER_TOO_SMALL EFI_SUCCESS)) 77
       n (power_on tt) = None).
Proof.
  assert (Hbusy : forall j : nat,
             (polls uart_reset <= j)%nat -> tx_empty (never_ready j) = false)
    by (intros j _; reflexivity).
  split; [exact Hbusy|].
  destruct (busy_uart_blocks never_ready uart_reset Hbusy) as (_ & _ & _ & Hmain).
  intros n. apply Hmain. reflexivity.
Defined.

(** ** [EFI_ERROR] and the encoding of the statuses *)

(** X10.  [EFI_ERROR] tests bit 63 of the status.  So it is false of
    every code below [2^63], the codes of the header among them, and true
    of the same code with the high bit set, which is how the UEFI
    specification encodes an error. *)
Theorem EFI_ERROR_is_the_high_bit (status : EFI_STATUS) :
  EFI_ERROR status = Z.testbit (to_UINTN status) 63 /\
  (0 <= status < 2 ^ 63 ->
   EFI_ERROR status = false /\ EFI_ERROR (Z.lor (2 ^ 63) status) = true).
Proof.
  assert (Hbit : forall st : Z, EFI_ERROR st = Z.testbit (to_UINTN st) 63).
  { intros st. unfold EFI_ERROR, to_INTN. cbv zeta.
    pose proof (to_UINTN_range st) as Hu.
    change (2 ^ (UINTN_bits - 1)) with (2 ^ 63).
    change (2 ^ UINTN_bits) with (2 ^ 64).
    destruct (to_UINTN st <? 2 ^ 63) eqn:E.
    - apply Z.ltb_lt in E.
      transitivity false; [apply Z.ltb_ge; lia|]. symmetry.
      apply Z.testbit_false; [lia|]. rewrite Z.div_small by lia. reflexivity.
    - apply Z.ltb_ge in E.
      transitivity true; [apply Z.ltb_lt; lia|]. symmetry.
      apply Z.testbit_true; [lia|].
      replace (to_UINTN st / 2 ^ 63) with 1; [reflexivity|].
      apply (Z.div_unique (to_UINTN st) (2 ^ 63) 1 (to_UINTN st - 2 ^ 63)); lia. }
  split; [apply Hbit|]. intros Hs. split.
  - rewrite Hbit. rewrite to_UINTN_small by lia.
    apply Z.testbit_false; [lia|]. rewrite Z.div_small by lia. reflexivity.
  - rewrite Hbit. unfold to_UINTN, UINTN_bits.
    rewrite Z.mod_pow2_bits_low by lia.
    rewrite Z.lor_spec, Z.pow2_bits_true by lia. reflexivity.
Qed.

Lemma EFI_ERROR_high_bit_witness :
  0 <= EFI_BUFFER_TOO_SMALL < 2 ^ 63 /\
  EFI_ERROR EFI_BUFFER_TOO_SMALL = false /\
  EFI_ERROR (Z.lor (2 ^ 63) EFI_BUFFER_TOO_SMALL) = true.
Proof.
  assert (H : 0 <= EFI_BUFFER_TOO_SMALL < 2 ^ 63) by (unfold EFI_BUFFER_TOO_SMALL; lia).
  split; [exact H|].
  exact (proj2 (EFI_ERROR_is_the_high_bit EFI_BUFFER_TOO_SMALL) H).
Defined.

(** ** What [main] does on every path *)

Ltac firmware_leaf :=
  eexists; split;
  [ trace_suffix
  | first
      [ left; reflexivity
      | right; left; split; [reflexivity|assumption]
      | right; right; split; [reflexivity|split; [assumption|reflexivity]] ] ].

(** X11.  On every path of its boot sequence [main] calls the firmware
    in one of three ways: not at all; the size probe only (zero size, null
    buffer), when the probe does not answer [EFI_BUFFER_TOO_SMALL]; or
    the probe and then the exit primitive, once, with the image handle
    [main] was given and the key the probe left, when the probe answers
    [EFI_BUFFER_TOO_SMALL], and then all five initializers were invoked
    before. *)
Theorem firmware_calls_of_main
    (uart_read : nat -> byte) (F : Type) (inits : module -> run uart bool)
    (SystemTable : EFI_SYSTEM_TABLE F) (ImageHandle : EFI_HANDLE) (w : world F) :
  let bs := BootServices SystemTable in
  eventually_empty uart_read ->
  (forall m : module, total (inits m)) ->
  wp (boot_sequence uart_read F inits SystemTable ImageHandle) w
    (fun _ w' =>
       exists new : list event,
         trace w' = trace w ++ new /\
         (firmware_calls new = [] \/
          (firmware_calls new =
             [GetMemoryMapCall 0 None (probe_status bs (fw w)) (probe_key bs (fw w))] /\
           probe_status bs (fw w) <> EFI_BUFFER_TOO_SMALL) \/
          (firmware_calls new =
             [GetMemoryMapCall 0 None (probe_status bs (fw w)) (probe_key bs (fw w));
              ExitBootServicesCall ImageHandle (probe_key bs (fw w))
                (exit_status bs ImageHandle (fw w))] /\
           probe_status bs (fw w) = EFI_BUFFER_TOO_SMALL /\
           invoked new = [Memory; Devices; FileSystem; Graphics; HotServices]))).
Proof.
  intros bs fair Ht.
  unfold exit_status, probe_status, probe_key, probe, bs.
  unfold boot_sequence.
  repeat wp_step; try solve [firmware_leaf];
    match goal with
    | |- wp (if negb (?a =? ?b) then _ else _) _ _ =>
        destruct (Z.eqb_spec a b) as [E|E]; wp_world
    end;
    repeat wp_step; try solve [firmware_leaf];
    match goal with
    | |- wp (if EFI_ERROR ?s then _ else _) _ _ =>
        destruct (EFI_ERROR s) eqn:E'; wp_world
    end;
    repeat wp_step; firmware_leaf.
Qed.

Lemma firmware_calls_witness :
  (forall m : module, total (source_inits always_ready m)) /\
  wp (boot_sequence always_ready Z (source_inits always_ready)
        (mkSystemTable (keyed_firmware UEFI_INVALID_PARAMETER)) 77)
    (power_on 7)
    (fun _ w' => List.length (firmware_calls (trace w')) <= 2)%nat.
Proof.
  assert (Htot : forall m : module, total (source_inits always_ready m)).
  { intros m. apply (reports_total _ true).
    apply source_inits_report, always_ready_fair. }
  split; [exact Htot|].
  eapply wp_weaken.
  - apply (firmware_calls_of_main always_ready Z (source_inits always_ready)
             (mkSystemTable (keyed_firmware UEFI_INVALID_PARAMETER)) 77
             (power_on 7) always_ready_fair Htot).
  - intros r w' (new & Ht & Hcalls). rewrite Ht. simpl.
    destruct Hcalls as [H|[[H _]|[H _]]]; rewrite H; simpl; lia.
Defined.

(** X12.  The program as it is written, with its own initializers, which
    all return [true]: [main] invokes the five of them and emits no
    warning; it returns only what the firmware returned, the status of the
    size probe when it is not [EFI_BUFFER_TOO_SMALL] or the status of the
    exit call when [EFI_ERROR] holds for it, each with its one error
    diagnostic; otherwise it never returns. *)
Theorem main_of_the_source
    (uart_read : nat -> byte) (F : Type)
    (SystemTable : EFI_SYSTEM_TABLE F) (ImageHandle : EFI_HANDLE) (w : world F) :
  let bs := BootServices SystemTable in
  let entry_routine :=
    main uart_read F (source_inits uart_read) SystemTable ImageHandle in
  eventually_empty uart_read ->
  wp entry_routine w
    (fun status w' =>
       exists new : list event,
         trace w' = trace w ++ new /\
         invoked new = [Memory; Devices; FileSystem; Graphics; HotServices] /\
         warnings new = [] /\
         ((status = probe_status bs (fw w) /\
           status <> EFI_BUFFER_TOO_SMALL /\
           errors new = [msg_no_map_size]) \/
          (probe_status bs (fw w) = EFI_BUFFER_TOO_SMALL /\
           status = exit_status bs ImageHandle (fw w) /\
           EFI_ERROR status = true /\
           errors new = [msg_exit_failed])))
  \/
  ((forall n : nat, entry_routine n w = None) /\
   probe_status bs (fw w) = EFI_BUFFER_TOO_SMALL /\
   EFI_ERROR (exit_status bs ImageHandle (fw w)) = false).
Proof.
  intros bs entry_routine fair.
  assert (Hup : modules_up (source_inits uart_read) true true true)
    by (repeat split; apply source_inits_report; exact fair).
  destruct (Z.eq_dec (probe_status bs (fw w)) EFI_BUFFER_TOO_SMALL) as [Hp|Hp];
    [destruct (EFI_ERROR (exit_status bs ImageHandle (fw w))) eqn:He|].
  - left. apply main_returns. eapply wp_weaken.
    + apply (exit_failure_path uart_read F _ fair SystemTable ImageHandle w
               true true true Hup Hp He).
    + intros r w' [-> Ht]. eexists. split; [reflexivity|].
      eexists. split; [exact Ht|]. split; [reflexivity|]. split; [reflexivity|].
      right. repeat split; try assumption; reflexivity.
  - right. split; [|split; [exact Hp|reflexivity]].
    apply main_never_returns. eapply wp_weaken.
    + apply (proceed_path uart_read F _ fair SystemTable ImageHandle w
               true true true Hup Hp He).
    + intros r w' [-> _]. reflexivity.
  - left. apply main_returns. eapply wp_weaken.
    + apply (probe_failure_path uart_read F _ fair SystemTable ImageHandle w
               true true true Hup Hp).
    + intros r w' [-> Ht]. eexists. split; [reflexivity|].
      eexists. split; [exact Ht|]. split; [reflexivity|]. split; [reflexivity|].
      left. repeat split; try assumption; reflexivity.
Qed.

Lemma main_of_the_source_witness :
  eventually_empty every_other /\
  forall n : nat,
    main every_other unit (source_inits every_other)
      (mkSystemTable (fixed_firmware EFI_BUFFER_TOO_SMALL EFI_LOAD_ERROR)) 77
      n (power_on tt) = None.
Proof.
  split; [exact every_other_fair|].
  destruct (main_of_the_source every_other unit
              (mkSystemTable (fixed_firmware EFI_BUFFER_TOO_SMALL EFI_LOAD_ERROR))
              77 (power_on tt) every_other_fair) as [Hret|[Hnever _]].
  - destruct Hret as (status & w' & _ & new & _ & _ & _ & [(Hp & Hs & _)|(_ & Hs & He & _)]).
    + exfalso. apply Hs. rewrite Hp. reflexivity.
    + exfalso. rewrite Hs in He. discriminate.
  - exact Hnever.
Defined.

(** X13.  [main] stores the system table, the image handle and the
    boot-services table in the three globals before anything else, and
    nothing changes them afterwards: they hold the arguments of [main]
    at the end of the boot sequence on every path, the two fatal aborts
    and the failures of the handshake included. *)
Theorem globals_hold_the_arguments
    (uart_read : nat -> byte) (F : Type) (inits : module -> run uart bool)
    (SystemTable : EFI_SYSTEM_TABLE F) (ImageHandle : EFI_HANDLE) (w : world F) :
  eventually_empty uart_read ->
  (forall m : module, total (inits m)) ->
  wp (boot_sequence uart_read F inits SystemTable ImageHandle) w
    (fun _ w' =>
       gSystemTable w' = Some SystemTable /\
       gImageHandle w' = ImageHandle /\
       gBootServices w' = Some (BootServices SystemTable)).
Proof.
  intros fair Ht. unfold boot_sequence.
  repeat wp_step; try solve [repeat split];
    match goal with
    | |- wp (if negb (?a =? ?b) then _ else _) _ _ =>
        destruct (a =? b); wp_world
    end;
    repeat wp_step; try solve [repeat split];
    match goal with
    | |- wp (if EFI_ERROR ?s then _ else _) _ _ =>
        destruct (EFI_ERROR s); wp_world
    end;
    repeat wp_step; repeat split.
Qed.

Lemma globals_witness :
  (forall m : module, total (inits_returning (all_but [Memory]) m)) /\
  wp (boot_sequence always_ready unit (inits_returning (all_but [Memory]))
        (mkSystemTable (fixed_firmware EFI_BUFFER_TOO_SMALL EFI_SUCCESS)) 77)
    (power_on tt)
    (fun r w' => gImageHandle w' = 77).
Proof.
  assert (Htot : forall m : module, total (inits_returning (all_but [Memory]) m)).
  { intros m. apply (reports_total _ (all_but [Memory] m)).
    apply inits_returning_reports. }
  split; [exact Htot|].
  eapply wp_weaken.
  - apply (globals_hold_the_arguments always_ready unit
             (inits_returning (all_but [Memory]))
             (mkSystemTable (fixed_firmware EFI_BUFFER_TOO_SMALL EFI_SUCCESS)) 77
             (power_on tt) always_ready_fair Htot).
  - intros r w' (_ & H & _). exact H.
Defined.

(** ** The trace and the wire *)

Section Wire.

Variable uart_read : nat -> byte.
Variable F : Type.
Hypothesis fair : eventually_empty uart_read.

Lemma wp_puts_wire (s : string) (w : world F) (Q : unit -> world F -> Prop) :
  c_prefix (c_str s) = list_byte_of_string s ->
  (forall u : uart,
     tx u = tx (hw w) ++ flat_map crlf (text_of (Puts s)) ->
     Q tt (set_hw (add_event w (Puts s)) u)) ->
  wp (puts uart_read F s) w Q.
Proof.
  intros Hs H. unfold puts. apply wp_bind, wp_emit, wp_on_hw.
  destruct (debug_puts_tx uart_read fair (c_str s) (c_str_terminated s)
              (hw (add_event w (Puts s)))) as (u & Hc & Ht).
  exists tt, u. split; [exact Hc|]. apply H. rewrite Ht, Hs. reflexivity.
Qed.

Lemma source_init_lines (m : module) :
  source_inits uart_read m =
  (debug_puts uart_read (c_str (fst (init_lines m)));;
   debug_puts uart_read (c_str (snd (init_lines m)));; ret true).
Proof. destruct m; reflexivity. Qed.

Lemma init_lines_clean (m : module) :
  c_prefix (c_str (fst (init_lines m))) = list_byte_of_string (fst (init_lines m)) /\
  c_prefix (c_str (snd (init_lines m))) = list_byte_of_string (snd (init_lines m)).
Proof. destruct m; split; reflexivity. Qed.

Lemma wp_invoke_wire (m : module) (w : world F) (Q : bool -> world F -> Prop) :
  (forall u : uart,
     tx u = tx (hw w) ++ flat_map crlf (text_of (Invoke m)) ->
     Q true (set_hw (add_event w (Invoke m)) u)) ->
  wp (invoke F (source_inits uart_read) m) w Q.
Proof.
  intros H. unfold invoke. apply wp_bind, wp_emit, wp_on_hw.
  rewrite source_init_lines.
  destruct (init_lines_clean m) as [H1 H2].
  destruct (debug_puts_tx uart_read fair _ (c_str_terminated (fst (init_lines m)))
              (hw (add_event w (Invoke m)))) as (u1 & Hc1 & Ht1).
  destruct (debug_puts_tx uart_read fair _ (c_str_terminated (snd (init_lines m))) u1)
    as (u2 & Hc2 & Ht2).
  exists true, u2. split.
  - eapply converges_bind; [exact Hc1|].
    eapply converges_bind; [exact Hc2|apply converges_ret].
  - apply H. rewrite Ht2, Ht1, H1, H2. cbn [text_of hw add_event].
    rewrite flat_map_app, <- app_assoc. reflexivity.
Qed.

End Wire.

Ltac wire_step :=
  lazymatch goal with
  | |- wp (bind _ _) _ _ => apply wp_bind
  | |- wp (ret _) _ _ => apply wp_ret
  | |- wp (puts _ _ _) _ _ =>
      apply wp_puts_wire;
      [assumption|reflexivity
      |let H := fresh "Htx" in
       intros ?u H; cbn [hw set_hw set_fw add_event] in H]
  | |- wp (capture _ _ _) _ _ => apply wp_capture
  | |- wp (invoke _ _ _) _ _ =>
      apply wp_invoke_wire;
      [assumption
      |let H := fresh "Htx" in
       intros ?u H; cbn [hw set_hw set_fw add_event] in H]
  | |- wp (call_GetMemoryMap _ _ _) _ _ =>
      eapply wp_call_GetMemoryMap; [reflexivity|]
  | |- wp (call_ExitBootServices _ _ _) _ _ =>
      eapply wp_call_ExitBootServices; [reflexivity|]
  end; wp_world.

Ltac wire_leaf :=
  eexists; split;
  [ trace_suffix
  | repeat match goal with
           | H : tx ?u = _ |- context [tx ?u] => rewrite H; clear H
           end;
    rewrite <- ?app_assoc; reflexivity ].

(** X14.  The trace and the wire agree.  For the program with its own
    initializers, on every path of the boot sequence, the bytes written to
    the register are the texts of the events of the trace, in the order of
    the trace (the argument of every [debug_puts] of [main], the two
    lines of every initializer), with a carriage return after every line
    feed, and no other byte. *)
Theorem wire_carries_the_trace
    (uart_read : nat -> byte) (F : Type)
    (SystemTable : EFI_SYSTEM_TABLE F) (ImageHandle : EFI_HANDLE) (w : world F) :
  eventually_empty uart_read ->
  wp (boot_sequence uart_read F (source_inits uart_read) SystemTable ImageHandle) w
    (fun _ w' =>
       exists new : list event,
         trace w' = trace w ++ new /\
         tx (hw w') = tx (hw w) ++ flat_map crlf (flat_map text_of new)).
Proof.
  intros fair. unfold boot_sequence.
  repeat wire_step;
    match goal with
    | |- wp (if negb (?a =? ?b) then _ else _) _ _ =>
        destruct (a =? b); wp_world
    end;
    repeat wire_step; try solve [wire_leaf];
    match goal with
    | |- wp (if EFI_ERROR ?s then _ else _) _ _ =>
        destruct (EFI_ERROR s); wp_world
    end;
    repeat wire_step; wire_leaf.
Qed.

Lemma wire_witness :
  eventually_empty every_other /\
  wp (boot_sequence every_other unit (source_inits every_other)
        (mkSystemTable (fixed_firmware EFI_NOT_READY EFI_SUCCESS)) 77)
    (power_on tt)
    (fun _ w' => tx (hw w') = flat_map crlf (flat_map text_of (trace w'))).
Proof.
  split; [exact every_other_fair|].
  eapply wp_weaken.
  - apply (wire_carries_the_trace every_other unit
             (mkSystemTable (fixed_firmware EFI_NOT_READY EFI_SUCCESS)) 77
             (power_on tt) every_other_fair).
  - intros r w' (new & Ht & Hw). rewrite Hw, Ht. reflexivity.
Defined.
